(** * main_publisher.py: code extraction and SBOM assembly

    A shallow embedding of [src/main_publisher.py] and the properties its
    specification states about it.

    Conventions of the embedding.
    - A Python [str] is a [string]; one character stands for one code point
      of the Latin-1 range (0..255).  [str.strip], [str.lower] and the
      regular expressions are the Python ones restricted to that range.
    - The file system is a finite map from path to text.  Directories and
      permissions are not part of the map: whether [os.makedirs] succeeds
      and whether a path can be opened for writing is what the operating
      system answers, an argument of the model ([os_model]).  A file that
      is opened for writing holds the text written to it afterwards.
      [ET.parse] and the text reader of the dependency collector are
      arguments as well: the tree a content parses to, if any, and the
      text it is as UTF-8, if any.
    - The progress lines printed to standard output are left out.
    - [uuid.uuid4] reads sixteen random bytes; the random bytes are an
      explicit argument of [generate_sbom]. *)

From Stdlib Require Import Ascii ZArith NArith Lia Bool.
From stdpp Require Import gmap strings list pretty.

Set Warnings "-register-all".

Local Open Scope stdpp_scope.

(** ** Python strings *)

Module PyStr.

Definition newline : ascii := "010"%char.

(** [str.isspace] on one code point below 256: the ASCII controls
    09..0D and 1C..1F, the space, NEL (85) and the no-break space (A0). *)
Definition isspace (c : ascii) : bool :=
  let n := N_of_ascii c in
  ((9 <=? n) && (n <=? 13) || (28 <=? n) && (n <=? 32)
   || (n =? 133) || (n =? 160))%N.

(** [str.lower] on one code point below 256: A..Z and the capital
    letters C0..DE of Latin-1 (D7 is the multiplication sign). *)
Definition lower_char (c : ascii) : ascii :=
  let n := N_of_ascii c in
  if ((65 <=? n) && (n <=? 90)
      || (192 <=? n) && (n <=? 222) && negb (n =? 215))%N
  then ascii_of_N (n + 32) else c.

Fixpoint lower (s : string) : string :=
  match s with
  | "" => ""
  | String c s' => String (lower_char c) (lower s')
  end.

Fixpoint lstrip (s : string) : string :=
  match s with
  | "" => ""
  | String c s' => if isspace c then lstrip s' else s
  end.

Fixpoint rstrip (s : string) : string :=
  match s with
  | "" => ""
  | String c s' =>
      match rstrip s' with
      | "" => if isspace c then "" else String c ""
      | r => String c r
      end
  end.

(** [s.strip()] *)
Definition strip (s : string) : string := rstrip (lstrip s).

(** The remainder of [s] after the literal [t], when [s] starts with [t]. *)
Fixpoint strip_prefix (t s : string) : option string :=
  match t with
  | "" => Some s
  | String a t' =>
      match s with
      | "" => None
      | String b s' => if Ascii.eqb a b then strip_prefix t' s' else None
      end
  end.

(** [s.startswith(t)] *)
Definition startswith (s t : string) : bool :=
  match strip_prefix t s with Some _ => true | None => false end.

(** [s.endswith(t)] *)
Definition endswith (s t : string) : bool :=
  startswith (String.rev s) (String.rev t).

(** [c in s] for a single character *)
Fixpoint contains_char (c : ascii) (s : string) : bool :=
  match s with
  | "" => false
  | String a s' => Ascii.eqb a c || contains_char c s'
  end.

(** [s] consists of whitespace only *)
Fixpoint all_space (s : string) : bool :=
  match s with
  | "" => true
  | String c s' => isspace c && all_space s'
  end.

(** The first character of [s] *)
Definition first_char (s : string) : option ascii :=
  match s with
  | "" => None
  | String c _ => Some c
  end.

(** The last character of [s] *)
Fixpoint last_char (s : string) : option ascii :=
  match s with
  | "" => None
  | String c "" => Some c
  | String _ s' => last_char s'
  end.

End PyStr.

(** ** The regular expressions of the source

    The three patterns of the source have one shape: a literal opening, an
    optional [[^>]*>], one lazy group [(.*?)] and a literal closing.
    [re.DOTALL] decides whether the dot of the group matches a newline. *)

Module Re.
Import PyStr.

Record pattern := Pattern {
  p_open : string;     (* the literal before the group *)
  p_attrs : bool;      (* whether [[^>]*>] follows the literal *)
  p_close : string;    (* the literal after the group *)
  p_dotall : bool      (* the flag re.DOTALL *)
}.

(** [[^>]*>]: the greedy class stops at the first [>], which is consumed;
    giving characters back never helps, as the next one is not [>]. *)
Fixpoint skip_attrs (s : string) : option string :=
  match s with
  | "" => None
  | String c s' => if Ascii.eqb c ">" then Some s' else skip_attrs s'
  end.

(** [(.*?)] followed by the literal [close]: the group grows by one
    character at a time until [close] matches; without DOTALL a newline
    cannot join the group.  The result is the group and the text after
    [close]. *)
Fixpoint lazy_until (dotall : bool) (close s : string)
  : option (string * string) :=
  match strip_prefix close s with
  | Some rest => Some ("", rest)
  | None =>
      match s with
      | "" => None
      | String c s' =>
          if negb dotall && Ascii.eqb c newline then None
          else
            match lazy_until dotall close s' with
            | Some (g, rest) => Some (String c g, rest)
            | None => None
            end
      end
  end.

(** A match anchored at the start of [s]: group 1 and the text after the
    match. *)
Definition match_at (p : pattern) (s : string) : option (string * string) :=
  match strip_prefix (p_open p) s with
  | None => None
  | Some s1 =>
      match (if p_attrs p then skip_attrs s1 else Some s1) with
      | None => None
      | Some s2 => lazy_until (p_dotall p) (p_close p) s2
      end
  end.

(** [re.search]: the leftmost position at which the pattern matches. *)
Fixpoint search (p : pattern) (s : string) : option (string * string) :=
  match match_at p s with
  | Some r => Some r
  | None =>
      match s with
      | "" => None
      | String _ s' => search p s'
      end
  end.

(** [re.findall] for a pattern with one group: the groups of the
    successive matches, each search starting where the previous match
    ended.  A match of these patterns is never empty, so the text left
    shrinks and the length of the text (plus one) is enough fuel. *)
Fixpoint findall_fuel (n : nat) (p : pattern) (s : string) : list string :=
  match n with
  | O => []
  | S n' =>
      match search p s with
      | None => []
      | Some (g, rest) => g :: findall_fuel n' p rest
      end
  end.

Definition findall (p : pattern) (s : string) : list string :=
  findall_fuel (S (String.length s)) p s.

End Re.

Import PyStr Re.

(** ** xml.etree.ElementTree

    The tree that [ET.parse] builds (comments and processing instructions
    are dropped by the default parser), and the library functions the
    source calls on it.  A tag or an attribute key is a qualified name: the
    namespace URI, empty when there is none, and the local name; the
    library writes it as one string, [{uri}local]. *)

Module ET.

Record qname := QName { q_uri : string; q_local : string }.

#[global] Instance qname_eq_dec : EqDecision qname.
Proof. solve_decision. Defined.

Inductive element := Element {
  tag : qname;
  attrib : list (qname * string);       (* in document order *)
  text : string;                        (* empty for None *)
  children : list element;
  tail : string                         (* empty for None *)
}.

(** [elem.get(key, default)] for a key without namespace *)
Fixpoint get (attrs : list (qname * string)) (key default : string) : string :=
  match attrs with
  | [] => default
  | (k, v) :: attrs' =>
      if decide (k = QName "" key) then v else get attrs' key default
  end.

(** [elem.iter()]: the element and all its descendants, in document order *)
Fixpoint iter (e : element) : list element :=
  e :: flat_map iter (children e).

(** [elem.findall(".//t")]: the descendants (not the element itself) with
    tag [t], in document order *)
Definition findall_descendants (t : qname) (e : element) : list element :=
  filter (fun d => tag d = t) (flat_map iter (children e)).

(** [elem.findall("t")]: the children with tag [t] *)
Definition findall_children (t : qname) (e : element) : list element :=
  filter (fun d => tag d = t) (children e).

(** *** Serialization: [ET.tostring(elem, encoding='unicode')] *)

Definition quote : string := String (ascii_of_nat 34) "".

(** [text.replace(c, r)] for a single character [c] *)
Fixpoint replace_char (c : ascii) (r s : string) : string :=
  match s with
  | "" => ""
  | String a s' =>
      if Ascii.eqb a c then r +:+ replace_char c r s'
      else String a (replace_char c r s')
  end.

Definition _escape_cdata (t : string) : string :=
  replace_char ">" "&gt;" (replace_char "<" "&lt;" (replace_char "&" "&amp;" t)).

Definition _escape_attrib (t : string) : string :=
  replace_char "009" "&#09;"
    (replace_char "010" "&#10;"
       (replace_char "013" "&#13;"
          (replace_char (ascii_of_nat 34) "&quot;" (_escape_cdata t)))).

Definition _namespace_map : list (string * string) :=
  [ ("http://www.w3.org/XML/1998/namespace", "xml");
    ("http://www.w3.org/1999/xhtml", "html");
    ("http://www.w3.org/1999/02/22-rdf-syntax-ns#", "rdf");
    ("http://schemas.xmlsoap.org/wsdl/", "wsdl");
    ("http://www.w3.org/2001/XMLSchema", "xs");
    ("http://www.w3.org/2001/XMLSchema-instance", "xsi");
    ("http://purl.org/dc/elements/1.1/", "dc") ].

Fixpoint assoc (k : string) (l : list (string * string)) : option string :=
  match l with
  | [] => None
  | (k', v) :: l' => if decide (k' = k) then Some v else assoc k l'
  end.

(** [add_qname]: the namespace table (URI to prefix, in insertion order)
    after one more qualified name has been seen *)
Definition add_qname (namespaces : list (string * string)) (q : qname)
  : list (string * string) :=
  if decide (q_uri q = "") then namespaces
  else
    match assoc (q_uri q) namespaces with
    | Some _ => namespaces
    | None =>
        let prefix :=
          match assoc (q_uri q) _namespace_map with
          | Some p => p
          | None => "ns" +:+ pretty (length namespaces)
          end in
        if decide (prefix = "xml") then namespaces
        else namespaces ++ [(q_uri q, prefix)]
    end.

(** [_namespaces]: every tag, then the keys of its attributes, for the
    elements in document order *)
Definition _namespaces (e : element) : list (string * string) :=
  foldl (fun ns d => foldl add_qname (add_qname ns (tag d)) (attrib d).*1)
        [] (iter e).

(** The serialized form of a qualified name, given the final table.  The
    library caches it at the first encounter; the table only grows and a
    URI keeps its prefix, so looking it up at the end gives the same. *)
Definition encode_qname (namespaces : list (string * string)) (q : qname)
  : string :=
  if decide (q_uri q = "") then q_local q
  else
    let prefix :=
      match assoc (q_uri q) namespaces with
      | Some p => p
      | None =>
          match assoc (q_uri q) _namespace_map with
          | Some p => p
          | None => "ns" +:+ pretty (length namespaces)
          end
      end in
    if decide (prefix = "") then q_local q
    else prefix +:+ ":" +:+ q_local q.

(** [sorted(namespaces.items(), key=lambda x: x[1])]: a stable insertion
    sort on the prefix *)
Fixpoint insert_sorted (x : string * string) (l : list (string * string))
  : list (string * string) :=
  match l with
  | [] => [x]
  | y :: l' =>
      if String.leb x.2 y.2 then x :: l else y :: insert_sorted x l'
  end.

Definition sort_on_prefix (l : list (string * string))
  : list (string * string) :=
  foldr insert_sorted [] l.

Fixpoint concat_str (l : list string) : string :=
  match l with
  | [] => ""
  | s :: l' => s +:+ concat_str l'
  end.

Definition xmlns_decl (d : string * string) : string :=
  " xmlns" +:+ (if decide (d.2 = "") then "" else ":" +:+ d.2)
  +:+ "=" +:+ quote +:+ _escape_attrib d.1 +:+ quote.

Definition attr_decl (qnames : list (string * string)) (kv : qname * string)
  : string :=
  " " +:+ encode_qname qnames kv.1 +:+ "=" +:+ quote
  +:+ _escape_attrib kv.2 +:+ quote.

(** [_serialize_xml]; [decls] is the namespace table for the element the
    serialization starts at and empty below it *)
Fixpoint _serialize_xml (qnames decls : list (string * string))
  (e : element) : string :=
  let t := encode_qname qnames (tag e) in
  "<" +:+ t
  +:+ concat_str (xmlns_decl <$> sort_on_prefix decls)
  +:+ concat_str (attr_decl qnames <$> attrib e)
  +:+ (if bool_decide (text e = "") && bool_decide (children e = [])
       then " />"
       else ">" +:+ _escape_cdata (text e)
            +:+ concat_str (map (_serialize_xml qnames []) (children e))
            +:+ "</" +:+ t +:+ ">")
  +:+ _escape_cdata (tail e).

Definition tostring (e : element) : string :=
  let namespaces := _namespaces e in
  _serialize_xml namespaces namespaces e.

End ET.

Import ET.

(** ** Python values, paths and UUIDs *)

(** The values the SBOM is made of: strings, integers, lists, and
    dictionaries with their keys in insertion order. *)
Inductive pyval :=
| PStr (s : string)
| PInt (z : Z)
| PList (l : list pyval)
| PDict (items : list (string * pyval)).

(** [d[key]] *)
Fixpoint dict_get (key : string) (items : list (string * pyval)) : option pyval :=
match items with
| [] => None
| (k, v) :: items' => if decide (k = key) then Some v else dict_get key items'
end.

(** [os.path.join(a, b)] on a POSIX system *)
Definition os_path_join (a b : string) : string :=
if startswith b "/" then b
else if bool_decide (a = "") || endswith a "/" then a +:+ b
else a +:+ "/" +:+ b.

(** [enumerate(l, start)] *)
Fixpoint enumerate {A} (start : nat) (l : list A) : list (nat * A) :=
match l with
| [] => []
| x :: l' => (start, x) :: enumerate (S start) l'
end.

Definition hex_char (d : N) : ascii :=
match d with
| 0 => "0" | 1 => "1" | 2 => "2" | 3 => "3" | 4 => "4" | 5 => "5"
| 6 => "6" | 7 => "7" | 8 => "8" | 9 => "9" | 10 => "a" | 11 => "b"
| 12 => "c" | 13 => "d" | 14 => "e" | _ => "f"
end%N%char.

(** The [n] low hexadecimal digits of [x], most significant first:
    ['%032x' % x] for [n = 32] and [x] below 2^128 *)
Fixpoint hex_digits (n : nat) (x : N) : string :=
match n with
| O => ""
| S n' => hex_digits n' (N.shiftr x 4) +:+ String (hex_char (N.land x 15)) ""
end.

(** [UUID(bytes=b, version=4).int], where [r] is the sixteen bytes [b] read
    as a big-endian number *)
Definition uuid4_int (r : N) : N :=
let i := (r mod 2 ^ 128)%N in
let i := N.ldiff i (N.shiftl 0xc000 48) in
let i := N.lor i (N.shiftl 0x8000 48) in
let i := N.ldiff i (N.shiftl 0xf000 64) in
N.lor i (N.shiftl 4 76).

(** [str(uuid.uuid4())] for the random bytes [r] *)
Definition uuid4_str (r : N) : string :=
let hex := hex_digits 32 (uuid4_int r) in
String.substring 0 8 hex +:+ "-" +:+ String.substring 8 4 hex +:+ "-"
+:+ String.substring 12 4 hex +:+ "-" +:+ String.substring 16 4 hex +:+ "-"
+:+ String.substring 20 12 hex.

(** ** The program *)

Inductive py_error :=
| FileNotFoundError          (* a file or a directory of the path is missing *)
| ParseError                 (* xml.etree.ElementTree.ParseError *)
| OSError                    (* any other OSError of os.makedirs or open *)
| UnicodeDecodeError.        (* the bytes of a file are not UTF-8 text *)

(** The errors of the operating system: a file or a directory of the path
    is missing, or any other one (the path is a directory, a file stands
    where a directory should, the permission is denied, ...).  Python
    raises them as FileNotFoundError and as another OSError. *)
Inductive os_error :=
| NoSuchFile
| OtherOSError.

Definition os_exception (e : os_error) : py_error :=
match e with
| NoSuchFile => FileNotFoundError
| OtherOSError => OSError
end.

(** What the operating system answers: the error of
    [os.makedirs(path, exist_ok=True)] for a path, if any, and the error
    of [open(path, 'w')] for a path once the output directory is made, if
    any.  The program makes no directory after [os.makedirs] and removes
    nothing, so the answer for a path is the same throughout a run. *)
Record os_model := OS {
  makedirs_error : string -> option os_error;
  open_w_error : string -> option os_error
}.

(** A [for] loop whose body may raise: the first exception ends it. *)
Fixpoint for_each {A E S} (body : S -> A -> E + S) (s : S) (l : list A)
  : E + S :=
match l with
| [] => inr s
| x :: l' =>
    match body s x with
    | inl e => inl e
    | inr s' => for_each body s' l'
    end
end.

Definition rbt_ns : string := "http://www.robotvendor.com/product/release".
Definition process_ns : string := "http://www.robotvendor.com/product/process".

(** [r'<ns0:code[^>]*>(.*?)</ns0:code>'] with re.DOTALL *)
Definition code_pattern : pattern := Pattern "<ns0:code" true "</ns0:code>" true.
(** [r'<ns0:language>(.*?)</ns0:language>'], no flag *)
Definition language_pattern : pattern :=
Pattern "<ns0:language>" false "</ns0:language>" false.
(** [r'<reference>(.*?)</reference>'] with re.DOTALL *)
Definition reference_pattern : pattern :=
Pattern "<reference>" false "</reference>" true.
(** [r'<import>(.*?)</import>'] with re.DOTALL *)
Definition import_pattern : pattern := Pattern "<import>" false "</import>" true.

Definition extension_map : gmap string string :=
{[ "csharp" := "cs"; "powershell" := "ps1"; "visualbasic" := "vb" ]}.

(** [extension_map.get(language.lower(), 'txt')] *)
Definition file_extension (language : string) : string :=
default "txt" (extension_map !! lower language).

(** [language_match.group(1) if language_match else 'unknown'] on the
    serialized stage *)
Definition language_of (serialized : string) : string :=
match search language_pattern serialized with
| Some (g, _) => g
| None => "unknown"
end.

Definition stage_name (stage : element) : string :=
get (attrib stage) "name" "UnnamedStage".

(** [f"{stage_name}_{idx}.{file_extension}"] *)
Definition file_name (name : string) (idx : nat) (ext : string) : string :=
name +:+ "_" +:+ pretty idx +:+ "." +:+ ext.

(** [f.write(content)] on a file that was opened with mode ['w'] *)
Definition write_file (path content : string) (fs : gmap string string)
  : gmap string string :=
<[path := content]> fs.

Section Extractor.

Variable os : os_model.

(** [ET.parse] followed by [getroot], on the text of the file; [None] is a
    ParseError. *)
Variable ET_parse : string -> option element.

(** [with open(path, 'w', encoding='utf-8') as f: f.write(content)]: the
    exception and the file system as it is then, or the file system after
    the write *)
Definition open_and_write (path content : string) (fs : gmap string string)
  : py_error * gmap string string + gmap string string :=
match open_w_error os path with
| Some e => inl (os_exception e, fs)
| None => inr (write_file path content fs)
end.

(** The body of the loop over the stages *)
Definition process_stage (output_dir : string) (fs : gmap string string)
  (stage : element) : py_error * gmap string string + gmap string string :=
let code_blocks := findall code_pattern (tostring stage) in
let language := language_of (tostring stage) in
let file_extension := file_extension language in
for_each (fun fs '(idx, code) =>
            let full_path :=
              os_path_join output_dir
                (file_name (stage_name stage) idx file_extension) in
            open_and_write full_path (strip code) fs)
         fs (enumerate 1 code_blocks).

Definition process_root (output_dir : string) (root : element)
  (fs : gmap string string)
  : py_error * gmap string string + gmap string string :=
for_each (fun fs content =>
  for_each (fun fs robot_object =>
    for_each (fun fs process_item =>
      for_each (process_stage output_dir) fs
               (findall_children (QName process_ns "stage") process_item))
      fs (findall_children (QName process_ns "process") robot_object))
    fs (findall_children (QName process_ns "object") content))
  fs (findall_descendants (QName rbt_ns "contents") root).

(** The result of a call: the exception raised and the file system at that
    moment, or the file system when the call returns. *)
Definition extract_code_from_robot_release (file_path output_dir : string)
  (fs : gmap string string)
  : py_error * gmap string string + gmap string string :=
match makedirs_error os output_dir with
| Some e => inl (os_exception e, fs)
| None =>
    match fs !! file_path with
    | None => inl (FileNotFoundError, fs)
    | Some content =>
        match ET_parse content with
        | None => inl (ParseError, fs)
        | Some root => process_root output_dir root fs
        end
    end
end.

End Extractor.

Definition extract_text_between_tags (file_path : string)
  (fs : gmap string string) : py_error + list (string * string) :=
match fs !! file_path with
| None => inl FileNotFoundError
| Some content =>
    let reference_matches :=
      (fun m => ("reference", strip m)) <$> findall reference_pattern content in
    let import_matches :=
      (fun m => ("import", strip m)) <$> findall import_pattern content in
    inr (reference_matches ++ import_matches)
end.

Definition component (bom_ref lib_name : string) : pyval :=
PDict [ ("bom-ref", PStr bom_ref);
        ("name", PStr lib_name);
        ("version", PStr "unknown");
        ("purl", PStr ("pkg:generic/" +:+ lib_name +:+ "@unknown"));
        ("hashes", PList []);
        ("licenses", PList []);
        ("supplier", PDict [("name", PStr "unknown")]) ].

(** The state of the loop of [generate_sbom]: the components so far, the
    names seen, and the number of UUIDs drawn. *)
Definition sbom_step (urandom : nat -> N)
  (st : list pyval * gset string * nat) (lib : string * string)
  : list pyval * gset string * nat :=
let '(components, unique_libraries, drawn) := st in
let '(lib_type, lib_name) := lib in
if decide (lib_name ∈ unique_libraries) then st
else (components ++ [component (uuid4_str (urandom drawn)) lib_name],
      {[lib_name]} ∪ unique_libraries, S drawn).

(** [urandom k] is the result of the [k]-th call of [os.urandom(16)]. *)
Definition generate_sbom (urandom : nat -> N)
  (libraries : list (string * string)) : pyval :=
let components := (foldl (sbom_step urandom) ([], ∅, 0) libraries).1.1 in
PDict [ ("bomFormat", PStr "CycloneDX");
        ("specVersion", PStr "1.4");
        ("version", PInt 1);
        ("components", PList components) ].

(** ** json.dump and the rest of the program *)

Module Json.

(** The entry of ESCAPE_DCT for [c], or the \uXXXX form, for the characters
    that ESCAPE_ASCII matches: the backslash, the double quote and every
    character outside the range from the space to the tilde *)
Definition escape_char (c : ascii) : string :=
  let n := N_of_ascii c in
  if (n =? 92)%N then "\\"
  else if (n =? 34)%N then "\" +:+ quote
  else if (n =? 8)%N then "\b"
  else if (n =? 12)%N then "\f"
  else if (n =? 10)%N then "\n"
  else if (n =? 13)%N then "\r"
  else if (n =? 9)%N then "\t"
  else if ((n <? 32) || (126 <? n))%N then "\u" +:+ hex_digits 4 n
  else String c "".

Fixpoint escape_string (s : string) : string :=
  match s with
  | "" => ""
  | String c s' => escape_char c +:+ escape_string s'
  end.

(** [py_encode_basestring_ascii] *)
Definition encode_basestring_ascii (s : string) : string :=
  quote +:+ escape_string s +:+ quote.

Fixpoint spaces (n : nat) : string :=
  match n with
  | O => ""
  | S n' => String " " (spaces n')
  end.

(** ['\n' + _indent * level] for the indent of four spaces *)
Definition newline_indent (level : nat) : string :=
  String newline (spaces (4 * level)).

(** [sep.join(l)] *)
Fixpoint join (sep : string) (l : list string) : string :=
  match l with
  | [] => ""
  | [x] => x
  | x :: l' => x +:+ sep +:+ join sep l'
  end.

(** [_iterencode] with [indent=4], the chunks joined: the item separator
    is a comma followed by the new line and its indentation, the key
    separator a colon and a space; an empty list is [[]] and an empty
    dictionary [{}]. *)
Fixpoint _iterencode (level : nat) (o : pyval) : string :=
  match o with
  | PStr s => encode_basestring_ascii s
  | PInt z => pretty z
  | PList [] => "[]"
  | PList l =>
      "[" +:+ newline_indent (S level)
      +:+ join ("," +:+ newline_indent (S level))
               (map (_iterencode (S level)) l)
      +:+ newline_indent level +:+ "]"
  | PDict [] => "{}"
  | PDict items =>
      "{" +:+ newline_indent (S level)
      +:+ join ("," +:+ newline_indent (S level))
               (map (fun kv =>
                       match kv with
                       | (key, value) =>
                           encode_basestring_ascii key +:+ ": "
                           +:+ _iterencode (S level) value
                       end) items)
      +:+ newline_indent level +:+ "}"
  end.

(** The text [json.dump(o, f, indent=4)] writes to [f] *)
Definition dump (o : pyval) : string := _iterencode 0 o.

End Json.

(** [save_sbom_to_file], when [os.makedirs] and [open] raise nothing *)
Definition save_sbom_to_file (sbom : pyval) (output_dir : string)
  (fs : gmap string string) : gmap string string :=
let output_path := os_path_join output_dir "sbom.json" in
write_file output_path (Json.dump sbom) fs.

Section Main.

Variable os : os_model.
Variable ET_parse : string -> option element.

(** What [open(path, 'r', encoding='utf-8').read()] makes of the stored
    content of a file; [None] is a UnicodeDecodeError.  [ET.parse] reads
    the same content with the encoding the document declares. *)
Variable utf8_decode : string -> option string.

Variable urandom : nat -> N.

(** The body of [main] for the paths [file_path] and [output_dir]: the
    file system the run leaves, and the exception that ended it, if any. *)
Definition run_pipeline (file_path output_dir : string)
  (fs : gmap string string) : gmap string string * option py_error :=
match extract_code_from_robot_release os ET_parse file_path output_dir fs with
| inl (e, fs1) => (fs1, Some e)
| inr fs1 =>
    match fs1 !! file_path with
    | None => (fs1, Some FileNotFoundError)
    | Some content =>
        match utf8_decode content with
        | None => (fs1, Some UnicodeDecodeError)
        | Some content_text =>
            match extract_text_between_tags file_path
                    (<[file_path := content_text]> fs1) with
            | inl e => (fs1, Some e)
            | inr libraries =>
                let sbom := generate_sbom urandom libraries in
                match makedirs_error os output_dir with
                | Some e => (fs1, Some (os_exception e))
                | None =>
                    match open_w_error os
                            (os_path_join output_dir "sbom.json") with
                    | Some e => (fs1, Some (os_exception e))
                    | None => (save_sbom_to_file sbom output_dir fs1, None)
                    end
                end
            end
        end
    end
end.

Definition main (fs : gmap string string)
  : gmap string string * option py_error :=
let file_path := "path/to/your/robotrelease.xml" in
let output_dir := "path/to/output/directory" in
run_pipeline file_path output_dir fs.

End Main.

(** * Specification vocabulary *)

(** ** The regular expressions: what a match is

    [is_match p s a g rest]: the text [s] is [a], then an occurrence of the
    pattern with group [g], then [rest]. *)

Definition is_match (p : pattern) (s a g rest : string) : Prop :=
  exists attrs,
    s = a +:+ p_open p +:+ attrs +:+ g +:+ p_close p +:+ rest
    /\ (if p_attrs p
        then exists t, attrs = t +:+ ">" /\ contains_char ">" t = false
        else attrs = "")
    /\ (p_dotall p = false -> contains_char newline g = false).

(** The match the engine reports: the leftmost start, and from that start
    the shortest group. *)
Definition first_match (p : pattern) (s a g rest : string) : Prop :=
  is_match p s a g rest
  /\ forall a' g' rest', is_match p s a' g' rest' ->
       String.length a < String.length a'
       \/ (String.length a = String.length a'
           /\ String.length g <= String.length g').

(** The groups of the successive matches, each looked for in the text
    after the previous one. *)
Inductive all_matches (p : pattern) : string -> list string -> Prop :=
| all_matches_nil s :
    (forall a g rest, ~ is_match p s a g rest) ->
    all_matches p s []
| all_matches_cons s a g rest gs :
    first_match p s a g rest ->
    all_matches p rest gs ->
    all_matches p s (g :: gs).

(** ** Trimming

    [trimmed s t]: [t] is [s] without its leading and trailing whitespace. *)

Definition trimmed (s t : string) : Prop :=
  (exists l r, s = l +:+ t +:+ r /\ all_space l = true /\ all_space r = true)
  /\ (forall c, first_char t = Some c -> isspace c = false)
  /\ (forall c, last_char t = Some c -> isspace c = false).

(** ** Reading an SBOM *)

(** [sbom['components']] *)
Definition sbom_components (sbom : pyval) : list pyval :=
  match sbom with
  | PDict items =>
      match dict_get "components" items with
      | Some (PList l) => l
      | _ => []
      end
  | _ => []
  end.

(** [component['name']] *)
Definition component_name (c : pyval) : option string :=
  match c with
  | PDict items =>
      match dict_get "name" items with
      | Some (PStr s) => Some s
      | _ => None
      end
  | _ => None
  end.

Definition component_names (sbom : pyval) : list string :=
  omap component_name (sbom_components sbom).

(** [l.index(x)]: the position of the first occurrence of [x] in [l], and
    the length of [l] when there is none *)
Fixpoint index_of (x : string) (l : list string) : nat :=
  match l with
  | [] => 0
  | y :: l' => if decide (y = x) then 0 else S (index_of x l')
  end.

(** A dictionary without its [bom-ref] entry, and an SBOM whose components
    have lost theirs *)
Definition without_bom_ref (c : pyval) : pyval :=
  match c with
  | PDict items => PDict (filter (fun kv => kv.1 <> "bom-ref") items)
  | _ => c
  end.

Definition erase_bom_refs (sbom : pyval) : pyval :=
  match sbom with
  | PDict items =>
      PDict ((fun kv =>
                match kv.2 with
                | PList l =>
                    if decide (kv.1 = "components")
                    then (kv.1, PList (without_bom_ref <$> l)) else kv
                | _ => kv
                end) <$> items)
  | _ => sbom
  end.

(** The distinct elements of a list, each at the place of its first
    occurrence *)
Definition seen_step (ns : list string) (x : string) : list string :=
  if decide (x ∈ ns) then ns else ns ++ [x].

Definition distinct_names (l : list string) : list string :=
  foldl seen_step [] l.

(** The components built from the names [ns], the [i]-th one with the
    [i]-th UUID drawn *)
Definition components_of (urandom : nat -> N) (ns : list string) : list pyval :=
  imap (fun i n => component (uuid4_str (urandom i)) n) ns.

(** [ns] lists the distinct names of [l] in the order of their first
    occurrence. *)
Definition first_seen (ns l : list string) : Prop :=
  NoDup ns
  /\ (forall x, x ∈ ns <-> x ∈ l)
  /\ forall i j a b, ns !! i = Some a -> ns !! j = Some b -> i < j ->
       index_of a l < index_of b l.

(** A component as it is without its identifier *)
Definition component_no_ref (lib_name : string) : pyval :=
  PDict [ ("name", PStr lib_name);
          ("version", PStr "unknown");
          ("purl", PStr ("pkg:generic/" +:+ lib_name +:+ "@unknown"));
          ("hashes", PList []);
          ("licenses", PList []);
          ("supplier", PDict [("name", PStr "unknown")]) ].

(** ** Letter case *)

Definition is_az (c : ascii) : bool :=
  let n := N_of_ascii c in ((97 <=? n) && (n <=? 122))%N.

(** The capital of a letter a..z *)
Definition capital (c : ascii) : ascii :=
  if is_az c then ascii_of_N (N_of_ascii c - 32) else c.

(** [case_variant s key]: [s] is the lower-case word [key] with any of its
    letters possibly written as a capital. *)
Fixpoint case_variant (s key : string) : bool :=
  match s, key with
  | "", "" => true
  | String a s', String k key' =>
      (Ascii.eqb a k || Ascii.eqb a (capital k)) && case_variant s' key'
  | _, _ => false
  end.

Fixpoint all_az (s : string) : bool :=
  match s with
  | "" => true
  | String c s' => is_az c && all_az s'
  end.

Definition all_ascii : list ascii := ascii_of_nat <$> seq 0 256.

(** ** The files the extractor writes *)

(** A sequence of writes, carried out in order *)
Definition apply_writes (ws : list (string * string))
  (fs : gmap string string) : gmap string string :=
  foldl (fun fs w => write_file w.1 w.2 fs) fs ws.

(** A sequence of writes, carried out in order until the operating system
    refuses to open a path *)
Definition try_writes (os : os_model) (ws : list (string * string))
  (fs : gmap string string)
  : py_error * gmap string string + gmap string string :=
  for_each (fun fs w => open_and_write os w.1 w.2 fs) fs ws.

(** The text of the last write to [path] among [ws], if there is one *)
Fixpoint last_write (path : string) (ws : list (string * string))
  : option string :=
  match ws with
  | [] => None
  | (p, c) :: ws' =>
      match last_write path ws' with
      | Some c' => Some c'
      | None => if decide (p = path) then Some c else None
      end
  end.

(** The path of the [idx]-th file of a stage *)
Definition stage_path (output_dir : string) (stage : element) (idx : nat)
  : string :=
  os_path_join output_dir
    (file_name (stage_name stage) idx
       (file_extension (language_of (tostring stage)))).

(** The writes of one stage: path and text, in match order *)
Definition stage_writes (output_dir : string) (stage : element)
  : list (string * string) :=
  imap (fun i code => (stage_path output_dir stage (S i), strip code))
       (findall code_pattern (tostring stage)).

(** The stages in the order the loops visit them *)
Definition all_stages (root : element) : list element :=
  content ← findall_descendants (QName rbt_ns "contents") root;
  robot_object ← findall_children (QName process_ns "object") content;
  process_item ← findall_children (QName process_ns "process") robot_object;
  findall_children (QName process_ns "stage") process_item.

Definition root_writes (output_dir : string) (root : element)
  : list (string * string) :=
  all_stages root ≫= stage_writes output_dir.

(** ** The code blocks and the language of a stage, read off the tree *)


(** The text of a language element that has no attribute and whose text is
    on one line *)
Definition language_text (e : element) : option string :=
  if decide (tag e = QName process_ns "language" /\ attrib e = []
             /\ text e <> "" /\ contains_char newline (text e) = false)
  then Some (text e) else None.

(** The language a stage declares: the text of its first such language
    element, in document order *)
Definition stage_language (stage : element) : string :=
  default "unknown" (head (omap language_text (flat_map iter (children stage)))).

(** A name without the characters that end a name in a tag *)
Definition xml_name (n : string) : bool :=
  negb (contains_char "<" n || contains_char ">" n || contains_char ":" n).

(** The local names of the tag and of the attribute keys are XML names, as
    they are in every tree that [ET.parse] builds. *)
Definition well_named (e : element) : Prop :=
  xml_name (q_local (tag e)) = true
  /\ Forall (fun kv : qname * string => xml_name (q_local kv.1) = true)
            (attrib e).

(** A text that the serializer writes as it is *)
Definition no_markup (t : string) : bool :=
  negb (contains_char "&" t || contains_char "<" t || contains_char ">" t).

(** An element that holds text only, and none of &, < and > in it *)
Definition text_only (e : element) : Prop :=
  children e = [] /\ no_markup (text e) = true.

(** A stage whose code blocks are plain: every element below the stage
    whose name, in the namespace of the stage, begins with "code" is a
    code element with text only, and that text is not empty; every
    language element holds text only. *)
Definition plain_stage (stage : element) : Prop :=
  well_named stage
  /\ Forall (fun d =>
               well_named d
               /\ (q_uri (tag d) = process_ns ->
                   startswith (q_local (tag d)) "code" = true ->
                   q_local (tag d) = "code" /\ text_only d /\ text d <> "")
               /\ (tag d = QName process_ns "language" -> text_only d))
            (flat_map iter (children stage)).

(** ** The serialized text of an element *)

Definition attrs_text (qnames : list (string * string)) (e : element)
  : string :=
  concat_str (attr_decl qnames <$> attrib e).

(** What [_serialize_xml] writes after the opening of the start tag: the
    end of the tag, the content, the end tag and the tail *)
Definition element_content (qnames : list (string * string)) (e : element)
  : string :=
  (if bool_decide (text e = "") && bool_decide (children e = [])
   then " />"
   else ">" +:+ _escape_cdata (text e)
        +:+ concat_str (map (_serialize_xml qnames []) (children e))
        +:+ "</" +:+ encode_qname qnames (tag e) +:+ ">")
  +:+ _escape_cdata (tail e).


(** The group of the language pattern at an element *)
Definition role_language (e : element) : option string :=
  if decide (tag e = QName process_ns "language" /\ attrib e = []
             /\ text e <> ""
             /\ contains_char newline (_escape_cdata (text e)) = false)
  then Some (_escape_cdata (text e)) else None.

(** A prefix of the namespace table *)
Definition prefix_ok (p : string) : Prop :=
  p <> "" /\ contains_char "<" p = false /\ contains_char ">" p = false
  /\ contains_char ":" p = false.

(** The namespace table of an element of the process namespace: ns0 is the
    prefix of that namespace and of no other. *)
Definition ns_table_ok (ns : list (string * string)) : Prop :=
  assoc process_ns ns = Some "ns0"
  /\ (forall u p, assoc u ns = Some p ->
        prefix_ok p /\ (p = "ns0" -> u = process_ns))
  /\ Forall (fun up : string * string => prefix_ok up.2) ns.

(** What the scan for the code pattern needs of an element, in terms of
    its serialized name and attributes *)
Definition scan_ok_code (qnames : list (string * string)) (e : element)
  : Prop :=
  contains_char "<" (encode_qname qnames (tag e) +:+ attrs_text qnames e)
  = false
  /\ contains_char ">" (attrs_text qnames e) = false
  /\ (startswith (encode_qname qnames (tag e)) "ns0:code" = true ->
      tag e = QName process_ns "code" /\ children e = [] /\ text e <> "").

(** What the scan for the language pattern needs of an element *)
Definition scan_ok_language (qnames : list (string * string)) (e : element)
  : Prop :=
  contains_char "<" (encode_qname qnames (tag e) +:+ attrs_text qnames e)
  = false
  /\ contains_char ">" (encode_qname qnames (tag e)) = false
  /\ (encode_qname qnames (tag e) = "ns0:language" ->
      tag e = QName process_ns "language" /\ children e = []).

(** ** Example documents *)

Definition leaf (local text : string) : element :=
  Element (QName process_ns local) [] text [] "".

Definition release_of (stages : list element) : element :=
  Element (QName rbt_ns "release") [] ""
    [ Element (QName rbt_ns "contents") [] ""
        [ Element (QName process_ns "object") [] ""
            [ Element (QName process_ns "process") [] "" stages "" ] "" ] "" ]
    "".

Definition xml_head : string :=
  "<release xmlns='http://www.robotvendor.com/product/release'"
  +:+ " xmlns:p='http://www.robotvendor.com/product/process'>"
  +:+ "<contents><p:object><p:process>".

Definition xml_foot : string := "</p:process></p:object></contents></release>".

(** One stage "Main" with a csharp language tag and the code blocks A, B *)
Definition main_stage : element :=
  Element (QName process_ns "stage") [(QName "" "name", "Main")] ""
    [leaf "language" "csharp"; leaf "code" "A"; leaf "code" "B"] "".

Definition main_document : element := release_of [main_stage].

Definition main_xml : string :=
  xml_head +:+ "<p:stage name='Main'><p:language>csharp</p:language>"
  +:+ "<p:code>A</p:code><p:code>B</p:code></p:stage>" +:+ xml_foot.

(** Two stages named "Main", each with one code block *)
Definition main_stage_A : element :=
  Element (QName process_ns "stage") [(QName "" "name", "Main")] ""
    [leaf "language" "csharp"; leaf "code" "A"] "".

Definition main_stage_B : element :=
  Element (QName process_ns "stage") [(QName "" "name", "Main")] ""
    [leaf "language" "csharp"; leaf "code" "B"] "".

Definition two_main_document : element := release_of [main_stage_A; main_stage_B].

Definition two_main_xml : string :=
  xml_head
  +:+ "<p:stage name='Main'><p:language>csharp</p:language>"
  +:+ "<p:code>A</p:code></p:stage>"
  +:+ "<p:stage name='Main'><p:language>csharp</p:language>"
  +:+ "<p:code>B</p:code></p:stage>" +:+ xml_foot.

(** A stage without name and without language element *)
Definition unnamed_stage : element :=
  Element (QName process_ns "stage") [] "" [leaf "code" " x = 1 "] "".

Definition unnamed_document : element := release_of [unnamed_stage].

Definition unnamed_xml : string :=
  xml_head +:+ "<p:stage><p:code> x = 1 </p:code></p:stage>" +:+ xml_foot.

(** A stage whose language element and code block span several lines *)
Definition multiline_stage : element :=
  Element (QName process_ns "stage") [(QName "" "name", "Main")] ""
    [ leaf "language" (String newline "csharp" +:+ String newline "");
      leaf "code" ("a" +:+ String newline "b") ] "".

Definition multiline_document : element := release_of [multiline_stage].

Definition multiline_xml : string :=
  xml_head +:+ "<p:stage name='Main'><p:language>"
  +:+ String newline "csharp" +:+ String newline "</p:language><p:code>a"
  +:+ String newline "b</p:code></p:stage>" +:+ xml_foot.

(** A text that is not XML *)
Definition malformed_xml : string := "<release><contents></release>".

(** The parser on the example documents *)
Definition example_parse (content : string) : option element :=
  if decide (content = main_xml) then Some main_document
  else if decide (content = two_main_xml) then Some two_main_document
  else if decide (content = unnamed_xml) then Some unnamed_document
  else if decide (content = multiline_xml) then Some multiline_document
  else None.

(** A stage whose name has a slash *)
Definition slash_stage : element :=
  Element (QName process_ns "stage") [(QName "" "name", "a/b")] ""
    [leaf "code" "x"] "".

Definition slash_document : element := release_of [main_stage; slash_stage].

(** A system where every directory can be made, unless its path is empty,
    and where a file can be opened for writing when it lies in the
    directory out itself: no other directory is there. *)
Definition example_os : os_model :=
  OS (fun p => if decide (p = "") then Some NoSuchFile else None)
     (fun p =>
        match strip_prefix "out/" p with
        | Some name => if contains_char "/" name then Some NoSuchFile else None
        | None => Some NoSuchFile
        end).

(** A reference inside an XML comment and an import inside the text of a
    code element *)
Definition commented_xml : string :=
  "<a><!-- <reference>Old.Lib</reference> -->"
  +:+ "<code><![CDATA[ s = '<import>Fake</import>' ]]></code></a>".

(** ** Plain text *)

(** A line feed or a printable ASCII character, from the space to the
    tilde *)
Definition plain_char (c : ascii) : bool :=
  let n := N_of_ascii c in ((n =? 10) || (32 <=? n) && (n <=? 126))%N.

Fixpoint plain_text (s : string) : bool :=
  match s with
  | "" => true
  | String c s' => plain_char c && plain_text s'
  end.

(** A digit of lower-case hexadecimal notation *)
Definition is_hex (c : ascii) : bool :=
  let n := N_of_ascii c in
  ((48 <=? n) && (n <=? 57) || (97 <=? n) && (n <=? 102))%N.

Fixpoint all_hex (s : string) : bool :=
  match s with
  | "" => true
  | String c s' => is_hex c && all_hex s'
  end.

(** * Properties *)

Example strip_ex : strip (String newline "  a b  ") = "a b".
Proof. reflexivity. Qed.

Example findall_ex :
  findall (Pattern "<r>" false "</r>" true) "x<r>a</r><r><r>b</r>c</r><r>" = ["a"; "<r>b"].
Proof. reflexivity. Qed.

(** ** Strings *)

Lemma str_app_cons c s t : String c s +:+ t = String c (s +:+ t).
Proof. reflexivity. Qed.

Lemma str_app_nil_l s : "" +:+ s = s.
Proof. reflexivity. Qed.

Lemma str_app_nil_r s : s +:+ "" = s.
Proof. induction s as [|c s IH]; [done|]. by rewrite str_app_cons, IH. Qed.

Lemma str_app_assoc s t u : (s +:+ t) +:+ u = s +:+ t +:+ u.
Proof. induction s as [|c s IH]; [done|]. by rewrite !str_app_cons, IH. Qed.

Lemma str_length_app s t :
  String.length (s +:+ t) = String.length s + String.length t.
Proof. induction s as [|c s IH]; [done|]. rewrite str_app_cons. simpl. by rewrite IH. Qed.

Lemma str_app_eq_nil s t : s +:+ t = "" -> s = "" /\ t = "".
Proof. destruct s; [done|]. by rewrite str_app_cons. Qed.

Lemma strip_prefix_app t r : strip_prefix t (t +:+ r) = Some r.
Proof.
  induction t as [|a t IH]; [done|].
  rewrite str_app_cons. simpl. by rewrite Ascii.eqb_refl.
Qed.

Lemma strip_prefix_Some t s r : strip_prefix t s = Some r <-> s = t +:+ r.
Proof.
  split; [|intros ->; apply strip_prefix_app].
  revert s. induction t as [|a t IH]; intros s H; simpl in H.
  - by injection H as ->.
  - destruct s as [|b s]; [done|].
    destruct (Ascii.eqb_spec a b) as [->|]; [|done].
    rewrite str_app_cons. f_equal. by apply IH.
Qed.

Lemma strip_prefix_None t s : strip_prefix t s = None -> forall r, s <> t +:+ r.
Proof. intros H r ->. by rewrite strip_prefix_app in H. Qed.

Lemma contains_char_app c s t :
  contains_char c (s +:+ t) = contains_char c s || contains_char c t.
Proof.
  induction s as [|a s IH]; [done|].
  rewrite str_app_cons. simpl. by rewrite IH, orb_assoc.
Qed.

Lemma skip_attrs_Some s r :
  skip_attrs s = Some r ->
  exists t, s = t +:+ ">" +:+ r /\ contains_char ">" t = false.
Proof.
  revert r. induction s as [|c s IH]; intros r H; simpl in H; [done|].
  destruct (Ascii.eqb_spec c ">") as [->|Hc].
  - injection H as ->. by exists "".
  - destruct (IH _ H) as (t & -> & Ht). exists (String c t). split; [done|].
    simpl. rewrite Ht. by destruct (Ascii.eqb_spec c ">").
Qed.

Lemma skip_attrs_app t r :
  contains_char ">" t = false -> skip_attrs (t +:+ ">" +:+ r) = Some r.
Proof.
  induction t as [|c t IH]; intros H; [done|].
  rewrite str_app_cons. simpl in *. apply orb_false_elim in H as [-> H]. auto.
Qed.

Lemma lazy_until_Some d c s g rest :
  lazy_until d c s = Some (g, rest) ->
  s = g +:+ c +:+ rest
  /\ (d = false -> contains_char newline g = false)
  /\ forall g' rest', s = g' +:+ c +:+ rest' ->
       String.length g <= String.length g'.
Proof.
  revert g rest. induction s as [|x s IH]; intros g rest H.
  - simpl in H. destruct (strip_prefix c "") as [r|] eqn:E; [|done].
    injection H as <- <-. apply strip_prefix_Some in E.
    split; [done|]. split; [done|]. simpl. lia.
  - simpl in H. destruct (strip_prefix c (String x s)) as [r|] eqn:E.
    + injection H as <- <-. apply strip_prefix_Some in E.
      split; [done|]. split; [done|]. simpl; lia.
    + destruct (negb d && Ascii.eqb x newline) eqn:Hnl; [done|].
      destruct (lazy_until d c s) as [[g0 r0]|] eqn:E0; [|done].
      injection H as <- <-. destruct (IH _ _ eq_refl) as (-> & Hg & Hmin).
      split; [done|]. split.
      * intros ->. simpl in *. rewrite Hg by done.
        by destruct (Ascii.eqb x newline).
      * intros [|y g'] rest' Heq.
        -- exfalso. by eapply strip_prefix_None.
        -- rewrite str_app_cons in Heq. injection Heq as -> Heq.
           simpl. specialize (Hmin _ _ Heq). lia.
Qed.

Lemma lazy_until_None d c s :
  lazy_until d c s = None ->
  forall g rest, s = g +:+ c +:+ rest ->
    d = false /\ contains_char newline g = true.
Proof.
  induction s as [|x s IH]; intros H g rest Heq.
  - simpl in H. destruct (strip_prefix c "") eqn:E; [done|].
    symmetry in Heq. apply str_app_eq_nil in Heq as [-> Heq].
    exfalso. by eapply strip_prefix_None.
  - simpl in H. destruct (strip_prefix c (String x s)) eqn:E; [done|].
    destruct g as [|y g]; [exfalso; by eapply strip_prefix_None|].
    rewrite str_app_cons in Heq. injection Heq as <- Heq. simpl.
    destruct d; simpl in H.
    + destruct (lazy_until true c s) as [[??]|] eqn:E0; [done|].
      by destruct (IH eq_refl _ _ Heq).
    + destruct (Ascii.eqb x newline); [done|].
      destruct (lazy_until false c s) as [[??]|] eqn:E0; [done|].
      by destruct (IH eq_refl _ _ Heq).
Qed.

Lemma first_gt_unique t t' r r' :
  contains_char ">" t = false -> contains_char ">" t' = false ->
  t +:+ ">" +:+ r = t' +:+ ">" +:+ r' -> t = t' /\ r = r'.
Proof.
  revert t'. induction t as [|c t IH]; intros [|c' t'] Ht Ht' Heq.
  - split; [done|]. injection Heq as Heq. exact Heq.
  - rewrite str_app_cons in Heq. injection Heq as <- _. by simpl in Ht'.
  - rewrite str_app_cons in Heq. injection Heq as -> _. by simpl in Ht.
  - rewrite !str_app_cons in Heq. injection Heq as -> Heq. simpl in *.
    apply orb_false_elim in Ht as [_ Ht]. apply orb_false_elim in Ht' as [_ Ht'].
    destruct (IH _ Ht Ht' Heq) as [-> ->]. done.
Qed.

Lemma is_match_cons p c s c' a g rest :
  is_match p (String c s) (String c' a) g rest <->
  c = c' /\ is_match p s a g rest.
Proof.
  split.
  - intros (attrs & Heq & H1 & H2). rewrite str_app_cons in Heq.
    injection Heq as -> ->. split; [done|]. by exists attrs.
  - intros [-> (attrs & -> & H1 & H2)]. by exists attrs.
Qed.

Lemma match_at_Some p s g rest :
  match_at p s = Some (g, rest) ->
  is_match p s "" g rest
  /\ forall g' rest', is_match p s "" g' rest' ->
       String.length g <= String.length g'.
Proof.
  unfold match_at, is_match. intros H.
  destruct (strip_prefix (p_open p) s) as [s1|] eqn:E1; [|done].
  apply strip_prefix_Some in E1 as ->.
  destruct (p_attrs p) eqn:Hat.
  - destruct (skip_attrs s1) as [s2|] eqn:E2; [|done].
    apply skip_attrs_Some in E2 as (t & -> & Ht).
    apply lazy_until_Some in H as (-> & Hnl & Hmin). split.
    + exists (t +:+ ">"). rewrite str_app_nil_l, !str_app_assoc. eauto.
    + intros g' rest' (attrs & Heq & (t' & -> & Ht') & _).
      rewrite str_app_nil_l, !str_app_assoc in Heq. apply (inj _) in Heq.
      apply first_gt_unique in Heq as [_ Heq]; [|done..]. eauto.
  - apply lazy_until_Some in H as (-> & Hnl & Hmin). split.
    + exists "". by rewrite !str_app_nil_l.
    + intros g' rest' (attrs & Heq & -> & _).
      rewrite !str_app_nil_l in Heq. apply (inj _) in Heq. eauto.
Qed.

Lemma match_at_None p s :
  match_at p s = None -> forall g rest, ~ is_match p s "" g rest.
Proof.
  unfold match_at. intros H g rest (attrs & Heq & Hat & Hnl).
  rewrite str_app_nil_l in Heq. subst s. rewrite strip_prefix_app in H.
  destruct (p_attrs p).
  - destruct Hat as (t & -> & Ht). rewrite !str_app_assoc in H.
    rewrite skip_attrs_app in H by done.
    destruct (lazy_until_None _ _ _ H _ _ eq_refl) as [Hd Hg].
    rewrite Hnl in Hg; done.
  - subst attrs. rewrite str_app_nil_l in H.
    destruct (lazy_until_None _ _ _ H _ _ eq_refl) as [Hd Hg].
    rewrite Hnl in Hg; done.
Qed.

Lemma match_at_first p s g rest :
  match_at p s = Some (g, rest) -> first_match p s "" g rest.
Proof.
  intros [Hm Hmin]%match_at_Some. split; [done|].
  intros [|c a'] g' rest' H'; simpl; [|lia].
  right. split; [done|]. eauto.
Qed.

(** [re.search] reports the first match, and [None] only when the text
    has no match at all. *)
Lemma search_Some p s g rest :
  search p s = Some (g, rest) -> exists a, first_match p s a g rest.
Proof.
  revert g rest. induction s as [|c s IH]; intros g rest H; simpl in H.
  - destruct (match_at p "") as [[g0 r0]|] eqn:E; [|done].
    injection H as -> ->. exists "". by apply match_at_first.
  - destruct (match_at p (String c s)) as [[g0 r0]|] eqn:E.
    + injection H as -> ->. exists "". by apply match_at_first.
    + destruct (IH _ _ H) as (a & Hm & Hmin). exists (String c a). split.
      * by apply is_match_cons.
      * intros [|c' a'] g' rest' H'.
        -- by apply match_at_None with (g := g') (rest := rest') in E.
        -- apply is_match_cons in H' as [-> H']. simpl.
           destruct (Hmin _ _ _ H'); lia.
Qed.

Lemma search_None p s :
  search p s = None -> forall a g rest, ~ is_match p s a g rest.
Proof.
  induction s as [|c s IH]; intros H a g rest Hm; simpl in H.
  - destruct (match_at p "") eqn:E; [done|].
    destruct a as [|c a]; [by eapply match_at_None|].
    by destruct Hm as (attrs & Heq & _).
  - destruct (match_at p (String c s)) eqn:E; [done|].
    destruct a as [|c' a].
    + by eapply match_at_None.
    + apply is_match_cons in Hm as [_ Hm]. by eapply IH.
Qed.

Lemma is_match_length p s a g rest :
  p_open p <> "" -> is_match p s a g rest ->
  String.length rest < String.length s.
Proof.
  intros Ho (attrs & -> & _). rewrite !str_length_app.
  destruct (p_open p); [done|]. simpl. lia.
Qed.

Lemma findall_fuel_all_matches p n s :
  p_open p <> "" -> String.length s < n ->
  all_matches p s (findall_fuel n p s).
Proof.
  intros Ho. revert s. induction n as [|n IH]; intros s Hn; [lia|].
  simpl. destruct (search p s) as [[g rest]|] eqn:E.
  - destruct (search_Some _ _ _ _ E) as (a & Hf).
    eapply all_matches_cons; [exact Hf|]. apply IH.
    pose proof (is_match_length _ _ _ _ _ Ho (proj1 Hf)). lia.
  - apply all_matches_nil. by apply search_None.
Qed.

(** [re.findall] returns the groups of all the matches, in document order. *)
Lemma findall_all_matches p s :
  p_open p <> "" -> all_matches p s (findall p s).
Proof. intros Ho. apply findall_fuel_all_matches; [done|lia]. Qed.

(** The fuel of [findall] never runs out. *)
Lemma findall_fuel_enough p n m s :
  p_open p <> "" -> String.length s < n -> String.length s < m ->
  findall_fuel n p s = findall_fuel m p s.
Proof.
  intros Ho. revert m s. induction n as [|n IH]; intros [|m] s Hn Hm; try lia.
  simpl. destruct (search p s) as [[g rest]|] eqn:E; [|done].
  destruct (search_Some _ _ _ _ E) as (a & Hf & _).
  pose proof (is_match_length _ _ _ _ _ Ho Hf). f_equal. apply IH; lia.
Qed.

Lemma findall_unfold p s :
  p_open p <> "" ->
  findall p s =
    match search p s with
    | None => []
    | Some (g, rest) => g :: findall p rest
    end.
Proof.
  intros Ho. unfold findall at 1. simpl.
  destruct (search p s) as [[g rest]|] eqn:E; [|done].
  destruct (search_Some _ _ _ _ E) as (a & Hf & _).
  pose proof (is_match_length _ _ _ _ _ Ho Hf). f_equal.
  apply findall_fuel_enough; [done|lia..].
Qed.

Lemma lstrip_spec s :
  (exists l, s = l +:+ lstrip s /\ all_space l = true)
  /\ (forall c, first_char (lstrip s) = Some c -> isspace c = false).
Proof.
  induction s as [|c s [(l & Hl & Hsp) Hfirst]]; simpl.
  - split; [by exists ""|done].
  - destruct (isspace c) eqn:Hc.
    + split; [|done]. exists (String c l). rewrite str_app_cons, <- Hl.
      simpl. by rewrite Hc.
    + split; [by exists ""|]. simpl. by intros ? [= <-].
Qed.

Lemma rstrip_spec s :
  (exists r, s = rstrip s +:+ r /\ all_space r = true)
  /\ (forall c, last_char (rstrip s) = Some c -> isspace c = false).
Proof.
  induction s as [|c s [(r & Hr & Hsp) Hlast]]; simpl.
  - split; [by exists ""|done].
  - destruct (rstrip s) as [|d u] eqn:E.
    + rewrite str_app_nil_l in Hr. subst r. destruct (isspace c) eqn:Hc.
      * split; [|done]. exists (String c s). split; [done|]. simpl.
        by rewrite Hc.
      * split; [by exists s|]. simpl. by intros ? [= <-].
    + split; [exists r; by rewrite Hr at 1|]. exact Hlast.
Qed.

Lemma strip_trimmed s : trimmed s (strip s).
Proof.
  unfold strip.
  destruct (lstrip_spec s) as [(l & Hl & Hlsp) Hfirst].
  destruct (rstrip_spec (lstrip s)) as [(r & Hr & Hrsp) Hlast].
  split; [|split; [|done]].
  - exists l, r. split; [|done]. rewrite Hl at 1. by rewrite Hr at 1.
  - intros c Hc. apply Hfirst. rewrite Hr.
    by destruct (rstrip (lstrip s)).
Qed.

(** With re.DOTALL and no attribute part, a match is any occurrence of the
    opening literal followed, anywhere later, by the closing literal: the
    group is not restricted and may hold line breaks. *)
Lemma is_match_dotall o c s a g rest :
  is_match (Pattern o false c true) s a g rest <->
  s = a +:+ o +:+ g +:+ c +:+ rest.
Proof.
  unfold is_match; simpl. split.
  - by intros (attrs & -> & -> & _).
  - intros ->. by exists "".
Qed.

(** ** The dependency collector *)

Example extract_text_between_tags_scenario :
  extract_text_between_tags "release.xml"
    {[ "release.xml" :=
         "<reference>Newtonsoft.Json</reference><import> System.IO"
         +:+ String newline "</import><reference>Newtonsoft.Json</reference>" ]}
  = inr [ ("reference", "Newtonsoft.Json"); ("reference", "Newtonsoft.Json");
          ("import", "System.IO") ].
Proof. vm_compute. reflexivity. Qed.

(** C2.  [extract_text_between_tags] returns the reference matches first
    and the import matches after them, each kind in document order: the
    groups of the successive leftmost, shortest matches of the pattern in
    the text of the file.  A match is any opening tag followed later by the
    closing tag, whatever lies between them (line breaks included).  Each
    name is the group without its leading and trailing whitespace, and no
    match is dropped: duplicates stay. *)
Theorem extract_text_between_tags_spec (fs : gmap string string)
  (file_path content : string) :
  fs !! file_path = Some content ->
  exists refs imps,
    extract_text_between_tags file_path fs
    = inr (((fun m => ("reference", strip m)) <$> refs)
           ++ ((fun m => ("import", strip m)) <$> imps))
    /\ all_matches reference_pattern content refs
    /\ all_matches import_pattern content imps
    /\ (forall s a g rest,
          is_match reference_pattern s a g rest <->
          s = a +:+ "<reference>" +:+ g +:+ "</reference>" +:+ rest)
    /\ (forall s a g rest,
          is_match import_pattern s a g rest <->
          s = a +:+ "<import>" +:+ g +:+ "</import>" +:+ rest)
    /\ (forall m, trimmed m (strip m)).
Proof.
  intros Hfile.
  exists (findall reference_pattern content), (findall import_pattern content).
  unfold extract_text_between_tags. rewrite Hfile.
  split; [done|].
  split; [by apply findall_all_matches|].
  split; [by apply findall_all_matches|].
  split; [intros; apply is_match_dotall|].
  split; [intros; apply is_match_dotall|].
  apply strip_trimmed.
Qed.

Lemma extract_text_between_tags_spec_witness :
  ({[ "f" := "<reference> A </reference>" ]} : gmap string string) !! "f"
  = Some "<reference> A </reference>"
  /\ exists refs imps,
       extract_text_between_tags "f" {[ "f" := "<reference> A </reference>" ]}
       = inr (((fun m => ("reference", strip m)) <$> refs)
              ++ ((fun m => ("import", strip m)) <$> imps))
       /\ all_matches reference_pattern "<reference> A </reference>" refs
       /\ all_matches import_pattern "<reference> A </reference>" imps
       /\ (forall s a g rest,
             is_match reference_pattern s a g rest <->
             s = a +:+ "<reference>" +:+ g +:+ "</reference>" +:+ rest)
       /\ (forall s a g rest,
             is_match import_pattern s a g rest <->
             s = a +:+ "<import>" +:+ g +:+ "</import>" +:+ rest)
       /\ (forall m, trimmed m (strip m)).
Proof.
  split; [reflexivity|].
  apply (extract_text_between_tags_spec
           {[ "f" := "<reference> A </reference>" ]} "f"
           "<reference> A </reference>").
  reflexivity.
Defined.

(** ** The SBOM assembler *)

Lemma index_of_snoc_in x y l : x ∈ l -> index_of x (l ++ [y]) = index_of x l.
Proof.
  induction l as [|z l IH]; intros Hx; [by apply elem_of_nil in Hx|].
  simpl. destruct (decide (z = x)); [done|].
  apply elem_of_cons in Hx as [->|Hx]; [done|]. by rewrite IH.
Qed.

Lemma index_of_snoc_fresh x l : x ∉ l -> index_of x (l ++ [x]) = length l.
Proof.
  induction l as [|z l IH]; intros Hx; simpl.
  - by destruct (decide (x = x)).
  - apply not_elem_of_cons in Hx as [Hne Hx].
    destruct (decide (z = x)); [done|]. by rewrite IH.
Qed.

Lemma index_of_lt x l : x ∈ l -> index_of x l < length l.
Proof.
  induction l as [|z l IH]; intros Hx; [by apply elem_of_nil in Hx|].
  simpl. destruct (decide (z = x)); [lia|].
  apply elem_of_cons in Hx as [->|Hx]; [done|]. specialize (IH Hx). lia.
Qed.

Lemma first_seen_snoc_old ns l x : x ∈ l -> first_seen ns l -> first_seen ns (l ++ [x]).
Proof.
  intros Hx (Hnd & Hin & Hord). split; [done|]. split.
  - intros y. rewrite Hin, elem_of_app, list_elem_of_singleton.
    intuition (subst; auto).
  - intros i j a b Ha Hb Hij.
    rewrite !index_of_snoc_in; [by eapply Hord| |].
    + apply Hin. by eapply list_elem_of_lookup_2.
    + apply Hin. by eapply list_elem_of_lookup_2.
Qed.

Lemma first_seen_snoc_new ns l x :
  x ∉ l -> first_seen ns l -> first_seen (ns ++ [x]) (l ++ [x]).
Proof.
  intros Hx (Hnd & Hin & Hord). split; [|split].
  - apply NoDup_app. split; [done|]. split; [|apply NoDup_singleton].
    intros y Hy ->%list_elem_of_singleton. by apply Hx, Hin.
  - intros y. rewrite !elem_of_app, Hin. done.
  - intros i j a b Ha Hb Hij.
    assert (i < length ns) as Hi.
    { apply lookup_lt_Some in Hb. rewrite length_app in Hb. simpl in Hb. lia. }
    rewrite lookup_app_l in Ha by done.
    assert (a ∈ l) as Hal by (apply Hin; by eapply list_elem_of_lookup_2).
    rewrite (index_of_snoc_in a) by done.
    destruct (decide (j < length ns)) as [Hj|Hj].
    + rewrite lookup_app_l in Hb by done.
      rewrite index_of_snoc_in; [by eapply Hord|].
      apply Hin. by eapply list_elem_of_lookup_2.
    + rewrite lookup_app_r in Hb by lia.
      apply list_lookup_singleton_Some in Hb as [_ <-].
      rewrite index_of_snoc_fresh by done. by apply index_of_lt.
Qed.

Lemma distinct_names_first_seen l : first_seen (distinct_names l) l.
Proof.
  unfold distinct_names. induction l as [|x l IH] using rev_ind.
  - simpl. split; [apply NoDup_nil_2|]. split; [done|].
    intros i j a b Ha. by rewrite lookup_nil in Ha.
  - rewrite foldl_snoc. unfold seen_step at 1.
    destruct (decide (x ∈ foldl seen_step [] l)) as [Hin|Hin].
    + apply first_seen_snoc_old; [|done]. by apply IH.
    + apply first_seen_snoc_new; [|done]. intros Hl. by apply Hin, IH.
Qed.

Lemma sbom_step_seen urandom ns lib :
  sbom_step urandom (components_of urandom ns, list_to_set ns, length ns) lib
  = (components_of urandom (seen_step ns lib.2),
     list_to_set (seen_step ns lib.2), length (seen_step ns lib.2)).
Proof.
  destruct lib as [lib_type lib_name]. unfold sbom_step, seen_step. simpl.
  destruct (decide (lib_name ∈ (list_to_set ns : gset string))) as [Hin|Hin];
    destruct (decide (lib_name ∈ ns)) as [Hin'|Hin']; try done.
  - by apply elem_of_list_to_set in Hin.
  - exfalso. by apply Hin, elem_of_list_to_set.
  - unfold components_of. rewrite imap_app. simpl.
    rewrite Nat.add_0_r, list_to_set_app_L, length_app. simpl.
    f_equal; [f_equal|lia].
    by rewrite (comm_L (∪)), (right_id_L ∅ (∪)).
Qed.

(** The invariant of the loop of [generate_sbom]. *)
Lemma sbom_loop_invariant urandom libraries :
  foldl (sbom_step urandom) ([], ∅, 0) libraries
  = (components_of urandom (distinct_names libraries.*2),
     list_to_set (distinct_names libraries.*2),
     length (distinct_names libraries.*2)).
Proof.
  unfold distinct_names.
  induction libraries as [|lib libraries IH] using rev_ind; [done|].
  rewrite fmap_app, !foldl_snoc, IH.
  change ([lib].*2) with [lib.2]. rewrite foldl_snoc. apply sbom_step_seen.
Qed.

Lemma omap_component_name_imap (f : nat -> string -> pyval) ns :
  (forall i n, component_name (f i n) = Some n) ->
  omap component_name (imap f ns) = ns.
Proof.
  revert f. induction ns as [|n ns IH]; intros f Hf; [done|].
  simpl. rewrite Hf. f_equal. apply IH. intros; apply Hf.
Qed.

Lemma component_names_components_of urandom ns :
  omap component_name (components_of urandom ns) = ns.
Proof. by apply omap_component_name_imap. Qed.

(** The document [generate_sbom] returns. *)
Lemma generate_sbom_eq urandom libraries :
  generate_sbom urandom libraries
  = PDict [ ("bomFormat", PStr "CycloneDX");
            ("specVersion", PStr "1.4");
            ("version", PInt 1);
            ("components",
             PList (components_of urandom (distinct_names libraries.*2))) ].
Proof. unfold generate_sbom. by rewrite sbom_loop_invariant. Qed.

Lemma sbom_components_eq urandom libraries :
  sbom_components (generate_sbom urandom libraries)
  = components_of urandom (distinct_names libraries.*2).
Proof. by rewrite generate_sbom_eq. Qed.

Lemma hex_digits_length n x : String.length (hex_digits n x) = n.
Proof.
  revert x. induction n as [|n IH]; intros x; [done|].
  simpl. rewrite str_length_app, IH. simpl. lia.
Qed.

Lemma substring_length n m s :
  n + m <= String.length s -> String.length (String.substring n m s) = m.
Proof.
  revert n m. induction s as [|c s IH]; intros [|n] [|m] H; simpl in *;
    try done; try lia.
  - f_equal. apply (IH 0). lia.
  - apply IH. lia.
  - apply IH. lia.
Qed.

(** A UUID is written with 36 characters. *)
Lemma uuid4_str_length r : String.length (uuid4_str r) = 36.
Proof.
  unfold uuid4_str. cbv zeta.
  rewrite !str_length_app, !substring_length;
    rewrite ?hex_digits_length; simpl; lia.
Qed.

Lemma uuid4_str_nonempty r : uuid4_str r <> "".
Proof. intros H. pose proof (uuid4_str_length r) as Hl. by rewrite H in Hl. Qed.

Example generate_sbom_scenario urandom :
  component_names
    (generate_sbom urandom
       [ ("reference", "Newtonsoft.Json"); ("reference", "Newtonsoft.Json");
         ("import", "System.IO") ])
  = ["Newtonsoft.Json"; "System.IO"].
Proof.
  unfold component_names.
  by rewrite sbom_components_eq, component_names_components_of.
Qed.

(** C1.  For every input sequence of (kind, name) pairs the components of
    the SBOM carry the distinct names of the input, one component per name:
    no name occurs twice, the names are exactly those of the input, a name
    comes before another when its first occurrence in the input does, and
    the number of components is the number of distinct names.  The kinds
    play no part: two inputs with the same names give the same document.
    The input Newtonsoft.Json, Newtonsoft.Json, System.IO gives the two
    components Newtonsoft.Json and System.IO, in this order. *)
Theorem generate_sbom_one_component_per_name (urandom : nat -> N)
  (libraries : list (string * string)) :
  let sbom := generate_sbom urandom libraries in
  let names := component_names sbom in
  length (sbom_components sbom) = length names
  /\ NoDup names
  /\ (forall x, x ∈ names <-> x ∈ libraries.*2)
  /\ (forall i j a b,
        names !! i = Some a -> names !! j = Some b -> i < j ->
        index_of a libraries.*2 < index_of b libraries.*2)
  /\ length (sbom_components sbom)
     = size (list_to_set libraries.*2 : gset string)
  /\ (forall libraries',
        libraries'.*2 = libraries.*2 ->
        generate_sbom urandom libraries' = sbom)
  /\ component_names
       (generate_sbom urandom
          [ ("reference", "Newtonsoft.Json"); ("reference", "Newtonsoft.Json");
            ("import", "System.IO") ])
     = ["Newtonsoft.Json"; "System.IO"].
Proof.
  intros sbom names. subst names sbom. unfold component_names.
  rewrite sbom_components_eq, component_names_components_of.
  destruct (distinct_names_first_seen libraries.*2) as (Hnd & Hin & Hord).
  split; [unfold components_of; by rewrite length_imap|].
  split; [done|]. split; [done|]. split; [done|]. split.
  - unfold components_of. rewrite length_imap.
    rewrite <- (size_list_to_set (C := gset string)) by done.
    f_equal. apply set_eq. intros x. by rewrite !elem_of_list_to_set.
  - split; [|apply generate_sbom_scenario].
    intros libraries' Heq. by rewrite !generate_sbom_eq, Heq.
Qed.

(** C5.  The SBOM has the four top-level entries bomFormat "CycloneDX",
    specVersion "1.4", version 1 and components, and nothing else; every
    component has a non-empty bom-ref, the name of a library of the input,
    version "unknown", the purl pkg:generic/<name>@unknown, empty hashes
    and licenses, and the supplier name "unknown". *)
Theorem generate_sbom_shape (urandom : nat -> N)
  (libraries : list (string * string)) :
  exists components,
    generate_sbom urandom libraries
    = PDict [ ("bomFormat", PStr "CycloneDX");
              ("specVersion", PStr "1.4");
              ("version", PInt 1);
              ("components", PList components) ]
    /\ Forall (fun c =>
         exists bom_ref name,
           c = PDict [ ("bom-ref", PStr bom_ref);
                       ("name", PStr name);
                       ("version", PStr "unknown");
                       ("purl", PStr ("pkg:generic/" +:+ name +:+ "@unknown"));
                       ("hashes", PList []);
                       ("licenses", PList []);
                       ("supplier", PDict [("name", PStr "unknown")]) ]
           /\ bom_ref <> ""
           /\ name ∈ libraries.*2) components.
Proof.
  exists (components_of urandom (distinct_names libraries.*2)).
  split; [apply generate_sbom_eq|].
  apply Forall_lookup. intros i c Hc. unfold components_of in Hc.
  rewrite list_lookup_imap in Hc.
  destruct (distinct_names libraries.*2 !! i) as [name|] eqn:Hn; [|done].
  injection Hc as <-. exists (uuid4_str (urandom i)), name.
  split; [done|]. split; [apply uuid4_str_nonempty|].
  apply (distinct_names_first_seen libraries.*2).
  by eapply list_elem_of_lookup_2.
Qed.

Lemma without_bom_ref_component bom_ref lib_name :
  without_bom_ref (component bom_ref lib_name) = component_no_ref lib_name.
Proof. reflexivity. Qed.

Lemma erase_bom_refs_generate_sbom urandom libraries :
  erase_bom_refs (generate_sbom urandom libraries)
  = PDict [ ("bomFormat", PStr "CycloneDX");
            ("specVersion", PStr "1.4");
            ("version", PInt 1);
            ("components",
             PList (component_no_ref <$> distinct_names libraries.*2)) ].
Proof.
  rewrite generate_sbom_eq.
  change (erase_bom_refs ?x) with
    (PDict [ ("bomFormat", PStr "CycloneDX"); ("specVersion", PStr "1.4");
             ("version", PInt 1);
             ("components",
              PList (without_bom_ref
                       <$> components_of urandom (distinct_names libraries.*2))) ]).
  do 7 f_equal. apply list_eq. intros i. unfold components_of.
  rewrite !list_lookup_fmap, list_lookup_imap.
  by destruct (distinct_names libraries.*2 !! i).
Qed.

Lemma components_of_ext u1 u2 ns :
  (forall k, k < length ns -> u1 k = u2 k) ->
  components_of u1 ns = components_of u2 ns.
Proof.
  intros H. apply list_eq. intros i. unfold components_of.
  rewrite !list_lookup_imap.
  destruct (ns !! i) as [n|] eqn:Hn; [|done]. simpl.
  rewrite H; [done|]. by eapply lookup_lt_Some.
Qed.

(** C6, as the specification has it, fails: two invocations on the same
    input that draw different random bytes return different documents. *)
Lemma generate_sbom_two_invocations_differ :
  generate_sbom (fun _ => 0%N) [("reference", "Newtonsoft.Json")]
  <> generate_sbom (fun _ => 1%N) [("reference", "Newtonsoft.Json")].
Proof. vm_compute. discriminate. Qed.

(** C6, amended.  [generate_sbom] reads and writes no file; its result is
    determined by the input sequence and the random bytes drawn for the
    identifiers.  Two invocations on the same input return documents that
    agree on everything but the bom-ref values, and the same document when
    they draw the same random bytes. *)
Theorem generate_sbom_determined_up_to_bom_ref (u1 u2 : nat -> N)
  (libraries : list (string * string)) :
  erase_bom_refs (generate_sbom u1 libraries)
  = erase_bom_refs (generate_sbom u2 libraries)
  /\ component_names (generate_sbom u1 libraries)
     = component_names (generate_sbom u2 libraries)
  /\ ((forall k, k < length (sbom_components (generate_sbom u1 libraries)) ->
                 u1 k = u2 k) ->
      generate_sbom u1 libraries = generate_sbom u2 libraries).
Proof.
  split; [by rewrite !erase_bom_refs_generate_sbom|]. split.
  - unfold component_names.
    by rewrite !sbom_components_eq, !component_names_components_of.
  - rewrite sbom_components_eq. unfold components_of at 1.
    rewrite length_imap. intros H. rewrite !generate_sbom_eq.
    do 7 f_equal. by apply components_of_ext.
Qed.

(** ** The extension of a language *)

Lemma all_ascii_complete c : c ∈ all_ascii.
Proof.
  unfold all_ascii. rewrite <- (ascii_nat_embedding c).
  apply list_elem_of_fmap_2, elem_of_seq.
  pose proof (nat_ascii_bounded c). lia.
Qed.

Lemma lower_char_az a k :
  is_az k = true ->
  Ascii.eqb (lower_char a) k = Ascii.eqb a k || Ascii.eqb a (capital k).
Proof.
  assert (forallb (fun a => forallb (fun k =>
            implb (is_az k)
              (Bool.eqb (Ascii.eqb (lower_char a) k)
                        (Ascii.eqb a k || Ascii.eqb a (capital k))))
            all_ascii) all_ascii = true) as H by (vm_compute; reflexivity).
  intros Hk. rewrite forallb_forall in H.
  specialize (H a (proj1 (list_elem_of_In _ _) (all_ascii_complete a))).
  rewrite forallb_forall in H.
  specialize (H k (proj1 (list_elem_of_In _ _) (all_ascii_complete k))).
  rewrite Hk in H. simpl in H. by apply Bool.eqb_prop in H.
Qed.

Lemma lower_eq_case_variant s key :
  all_az key = true -> String.eqb (lower s) key = case_variant s key.
Proof.
  revert key. induction s as [|a s IH]; intros [|k key] Hkey; try done.
  simpl in *. apply andb_true_iff in Hkey as [Hk Hkey].
  rewrite <- IH, <- lower_char_az by done. done.
Qed.

Lemma lower_is_key s key :
  all_az key = true -> lower s = key <-> case_variant s key = true.
Proof.
  intros Hkey. rewrite <- lower_eq_case_variant by done.
  symmetry. apply String.eqb_eq.
Qed.

Lemma extension_map_lookup k :
  extension_map !! k
  = if decide (k = "csharp") then Some "cs"
    else if decide (k = "powershell") then Some "ps1"
    else if decide (k = "visualbasic") then Some "vb"
    else None.
Proof.
  unfold extension_map. repeat case_decide; subst; by simplify_map_eq.
Qed.

Lemma language_of_no_match serialized :
  (forall a g rest, ~ is_match language_pattern serialized a g rest) ->
  language_of serialized = "unknown".
Proof.
  intros H. unfold language_of.
  destruct (search language_pattern serialized) as [[g rest]|] eqn:E; [|done].
  destruct (search_Some _ _ _ _ E) as (a & Hm & _). by destruct (H a g rest).
Qed.

(** C4.  The extension of a language is decided by the language with its
    letters in lower case: "csharp" in any letter case gives cs,
    "powershell" ps1, "visualbasic" vb, and every other string gives txt;
    so does "unknown", the language of a stage without language element. *)
Theorem file_extension_case_insensitive (language : string) :
  file_extension language
  = (if case_variant language "csharp" then "cs"
     else if case_variant language "powershell" then "ps1"
     else if case_variant language "visualbasic" then "vb"
     else "txt")
  /\ file_extension "CSharp" = "cs"
  /\ file_extension "PowerShell" = "ps1"
  /\ file_extension "VisualBasic" = "vb"
  /\ file_extension "unknown" = "txt"
  /\ (forall serialized,
        (forall a g rest, ~ is_match language_pattern serialized a g rest) ->
        language_of serialized = "unknown"
        /\ file_extension (language_of serialized) = "txt").
Proof.
  split.
  - unfold file_extension. rewrite extension_map_lookup.
    repeat case_decide;
      repeat match goal with
        | H : lower _ = _ |- _ => apply lower_is_key in H; [rewrite H|done]
        | H : lower _ <> _ |- _ =>
            rewrite lower_is_key in H by done; apply not_true_is_false in H;
            rewrite H
        end; done.
  - do 4 (split; [by vm_compute|]).
    intros serialized H. by rewrite language_of_no_match.
Qed.

(** ** The code extractor: the writes of a run *)

Lemma apply_writes_app ws1 ws2 fs :
  apply_writes (ws1 ++ ws2) fs = apply_writes ws2 (apply_writes ws1 fs).
Proof. unfold apply_writes. by rewrite foldl_app. Qed.

Lemma for_each_app {A E S} (f : S -> A -> E + S) l1 l2 s :
  for_each f s (l1 ++ l2)
  = match for_each f s l1 with
    | inl e => inl e
    | inr s' => for_each f s' l2
    end.
Proof.
  revert s. induction l1 as [|x l1 IH]; intros s; [done|].
  simpl. destruct (f s x); [done|]. apply IH.
Qed.

Lemma for_each_ext {A E S} (f g : S -> A -> E + S) l s :
  (forall s x, f s x = g s x) -> for_each f s l = for_each g s l.
Proof.
  intros H. revert s. induction l as [|x l IH]; intros s; [done|].
  simpl. rewrite H. destruct (g s x); [done|]. apply IH.
Qed.

Lemma for_each_bind {A B E S} (f : S -> B -> E + S) (g : A -> list B) l s :
  for_each (fun s x => for_each f s (g x)) s l = for_each f s (l ≫= g).
Proof.
  revert s. induction l as [|x l IH]; intros s; [done|].
  simpl. rewrite for_each_app. destruct (for_each f s (g x)); [done|].
  apply IH.
Qed.

Lemma for_each_try_writes_bind {A} os (g : A -> list (string * string)) l fs :
  for_each (fun fs x => try_writes os (g x) fs) fs l
  = try_writes os (l ≫= g) fs.
Proof. apply for_each_bind. Qed.

Lemma for_each_enumerate_writes os (path : nat -> string) l k fs :
  for_each (fun fs '(idx, code) => open_and_write os (path idx) (strip code) fs)
           fs (enumerate k l)
  = try_writes os (imap (fun i code => (path (k + i), strip code)) l) fs.
Proof.
  revert k fs. induction l as [|x l IH]; intros k fs; [done|].
  unfold try_writes in *. simpl. rewrite Nat.add_0_r.
  destruct (open_and_write os (path k) (strip x) fs) as [err|fs']; [done|].
  rewrite IH. f_equal.
  apply imap_ext. intros i y _. simpl. f_equal. f_equal. lia.
Qed.

(** The loop over the code blocks of a stage carries out [stage_writes],
    as far as the operating system lets it. *)
Lemma process_stage_writes os output_dir fs stage :
  process_stage os output_dir fs stage
  = try_writes os (stage_writes output_dir stage) fs.
Proof.
  unfold process_stage, stage_writes, stage_path.
  apply (for_each_enumerate_writes os
           (fun idx => os_path_join output_dir
                         (file_name (stage_name stage) idx
                            (file_extension (language_of (tostring stage)))))).
Qed.

(** The four nested loops visit [all_stages] in order. *)
Lemma process_root_stages os output_dir root fs :
  process_root os output_dir root fs
  = for_each (process_stage os output_dir) fs (all_stages root).
Proof.
  unfold process_root, all_stages.
  rewrite <- for_each_bind. apply for_each_ext. intros fs1 content.
  rewrite <- for_each_bind. apply for_each_ext. intros fs2 robot_object.
  by rewrite <- for_each_bind.
Qed.

(** A run carries out [root_writes], as far as the operating system lets
    it. *)
Lemma process_root_writes os output_dir root fs :
  process_root os output_dir root fs
  = try_writes os (root_writes output_dir root) fs.
Proof.
  rewrite process_root_stages. unfold root_writes.
  rewrite <- for_each_try_writes_bind. apply for_each_ext. intros fs1 stage.
  apply process_stage_writes.
Qed.

(** The writes are all carried out exactly when every path can be opened. *)
Lemma try_writes_inr os ws fs fs' :
  try_writes os ws fs = inr fs'
  <-> Forall (fun w => open_w_error os w.1 = None) ws
      /\ fs' = apply_writes ws fs.
Proof.
  revert fs fs'. induction ws as [|[p c] ws IH]; intros fs fs'.
  - unfold try_writes. simpl. split.
    + intros [= <-]. by split.
    + by intros [_ ->].
  - change (try_writes os ((p, c) :: ws) fs)
      with (match open_and_write os p c fs with
            | inl err => inl err
            | inr fs1 => try_writes os ws fs1
            end).
    change (apply_writes ((p, c) :: ws) fs)
      with (apply_writes ws (write_file p c fs)).
    unfold open_and_write. rewrite Forall_cons. simpl.
    destruct (open_w_error os p) as [e|].
    + split; [done|]. by intros [[? _] _].
    + rewrite IH. split.
      * intros [? ?]. by repeat split.
      * intros [[_ ?] ?]. by split.
Qed.

(** An exception is the answer of the operating system for the first path
    that cannot be opened; the writes before it have been carried out. *)
Lemma try_writes_inl os ws fs e fs' :
  try_writes os ws fs = inl (e, fs')
  <-> exists ws1 w ws2 err,
        ws = ws1 ++ w :: ws2
        /\ Forall (fun w => open_w_error os w.1 = None) ws1
        /\ open_w_error os w.1 = Some err
        /\ e = os_exception err
        /\ fs' = apply_writes ws1 fs.
Proof.
  revert fs fs'. induction ws as [|[p c] ws IH]; intros fs fs'.
  - unfold try_writes. simpl. split; [done|].
    intros (ws1 & w & ws2 & err & H & _). by destruct ws1.
  - change (try_writes os ((p, c) :: ws) fs)
      with (match open_and_write os p c fs with
            | inl err => inl err
            | inr fs1 => try_writes os ws fs1
            end).
    unfold open_and_write. destruct (open_w_error os p) as [e'|] eqn:Hp.
    + split.
      * intros [= <- <-]. by exists [], (p, c), ws, e'.
      * intros (ws1 & w & ws2 & err & H & Hok & Hw & -> & Hfs).
        destruct ws1 as [|w1 ws1]; simpl in H.
        -- injection H as <- _. simpl in Hw. subst fs'. simpl. congruence.
        -- injection H as <- _. apply Forall_cons in Hok as [Hok _].
           simpl in Hok. congruence.
    + rewrite IH. split.
      * intros (ws1 & w & ws2 & err & -> & Hok & Hw & He & Hfs).
        exists ((p, c) :: ws1), w, ws2, err. split; [done|].
        split; [by apply Forall_cons|]. done.
      * intros (ws1 & w & ws2 & err & H & Hok & Hw & He & Hfs).
        destruct ws1 as [|w1 ws1]; simpl in H.
        -- injection H as <- _. simpl in Hw. congruence.
        -- injection H as <- ->. apply Forall_cons in Hok as [_ Hok].
           by exists ws1, w, ws2, err.
Qed.

Lemma last_write_app path ws1 ws2 :
  last_write path (ws1 ++ ws2)
  = match last_write path ws2 with
    | Some c => Some c
    | None => last_write path ws1
    end.
Proof.
  induction ws1 as [|[p c] ws1 IH]; simpl.
  - by destruct (last_write path ws2).
  - rewrite IH. by destruct (last_write path ws2).
Qed.

Lemma last_write_None path ws : path ∉ ws.*1 -> last_write path ws = None.
Proof.
  induction ws as [|[p c] ws IH]; intros H; [done|].
  simpl in *. apply not_elem_of_cons in H as [Hne H].
  rewrite IH by done. by destruct (decide (p = path)).
Qed.


(** After a sequence of writes a path holds the text of the last write to
    it, and what it held before when nothing was written to it. *)
Lemma lookup_apply_writes ws fs path :
  apply_writes ws fs !! path
  = match last_write path ws with
    | Some c => Some c
    | None => fs !! path
    end.
Proof.
  revert fs. induction ws as [|[p c] ws IH] using rev_ind; intros fs; [done|].
  rewrite apply_writes_app, last_write_app. simpl.
  unfold write_file. rewrite lookup_insert.
  destruct (decide (p = path)); [done|]. apply IH.
Qed.

Lemma apply_writes_idempotent ws fs :
  apply_writes ws (apply_writes ws fs) = apply_writes ws fs.
Proof.
  apply map_eq. intros path. rewrite !lookup_apply_writes.
  by destruct (last_write path ws).
Qed.

Lemma str_app_inj_r s s' t : s +:+ t = s' +:+ t -> s = s'.
Proof.
  intros H.
  assert (String.length s = String.length s') as Hlen.
  { apply (f_equal String.length) in H. rewrite !str_length_app in H. lia. }
  revert s' Hlen H. induction s as [|c s IH]; intros [|c' s'] Hlen H;
    try done.
  rewrite !str_app_cons in H. injection H as -> H.
  f_equal. apply IH; [by injection Hlen|done].
Qed.





Lemma stage_writes_length output_dir stage :
  length (stage_writes output_dir stage)
  = length (findall code_pattern (tostring stage)).
Proof. unfold stage_writes. apply length_imap. Qed.



Lemma get_default attrs key default :
  (forall v, (QName "" key, v) ∉ attrs) -> get attrs key default = default.
Proof.
  induction attrs as [|[k v] attrs IH]; intros H; [done|].
  simpl. destruct (decide (k = QName "" key)) as [->|Hk].
  - destruct (H v). apply elem_of_cons. by left.
  - apply IH. intros v' Hv'. apply (H v'). apply elem_of_cons. by right.
Qed.

Lemma is_match_language s a g rest :
  is_match language_pattern s a g rest <->
  s = a +:+ "<ns0:language>" +:+ g +:+ "</ns0:language>" +:+ rest
  /\ contains_char newline g = false.
Proof.
  unfold is_match; simpl. split.
  - intros (attrs & -> & -> & H). auto.
  - intros [-> H]. by exists "".
Qed.

(** When [re.search] finds no language, every language element of the
    text has a line break in its content. *)
Lemma search_language_None s :
  search language_pattern s = None ->
  forall a g rest,
    s = a +:+ "<ns0:language>" +:+ g +:+ "</ns0:language>" +:+ rest ->
    contains_char newline g = true.
Proof.
  intros H a g rest Heq. apply not_false_is_true. intros Hg.
  eapply search_None; [exact H|]. apply is_match_language. eauto.
Qed.

Lemma root_writes_path output_dir root p :
  p ∈ (root_writes output_dir root).*1 ->
  exists stage i,
    stage ∈ all_stages root
    /\ i < length (findall code_pattern (tostring stage))
    /\ p = stage_path output_dir stage (S i).
Proof.
  intros Hin. apply list_elem_of_fmap in Hin as ([p' c] & Heq & Hin).
  simpl in Heq. subst p'.
  apply list_elem_of_bind in Hin as (stage & Hin & Hst).
  apply list_elem_of_lookup in Hin as [i Hi]. exists stage, i.
  split; [done|]. unfold stage_writes in Hi.
  rewrite list_lookup_imap in Hi.
  destruct (findall code_pattern (tostring stage) !! i) as [b|] eqn:Hb;
    [|done].
  injection Hi as Hi _. split; [|done]. by eapply lookup_lt_Some.
Qed.

Example main_document_writes :
  root_writes "out" main_document
  = [("out/Main_1.cs", "A"); ("out/Main_2.cs", "B")].
Proof. reflexivity. Qed.

(** The stages of a run are elements named stage of the process namespace. *)
Lemma all_stages_tag root stage :
  stage ∈ all_stages root -> tag stage = QName process_ns "stage".
Proof.
  unfold all_stages. intros H.
  apply list_elem_of_bind in H as (content & H & _).
  apply list_elem_of_bind in H as (robot_object & H & _).
  apply list_elem_of_bind in H as (process_item & H & _).
  unfold findall_children in H. by apply list_elem_of_filter in H as [H _].
Qed.


(** ** The serialized text of a stage *)

Lemma assoc_app_Some k l l' v :
  assoc k l = Some v -> assoc k (l ++ l') = Some v.
Proof.
  induction l as [|[k' v'] l IH]; [done|].
  simpl. by destruct (decide (k' = k)).
Qed.

Lemma add_qname_keeps ns q u p :
  assoc u ns = Some p -> assoc u (add_qname ns q) = Some p.
Proof.
  intros H. unfold add_qname.
  destruct (decide (q_uri q = "")); [done|].
  destruct (assoc (q_uri q) ns); [done|].
  case_decide; [done|]. by apply assoc_app_Some.
Qed.

Lemma foldl_add_qname_keeps qs ns u p :
  assoc u ns = Some p -> assoc u (foldl add_qname ns qs) = Some p.
Proof.
  revert ns. induction qs as [|q qs IH]; intros ns H; [done|].
  simpl. by apply IH, add_qname_keeps.
Qed.

Lemma namespaces_step_keeps ds ns u p :
  assoc u ns = Some p ->
  assoc u (foldl (fun ns d =>
                    foldl add_qname (add_qname ns (tag d)) (attrib d).*1)
                 ns ds) = Some p.
Proof.
  revert ns. induction ds as [|d ds IH]; intros ns H; [done|].
  simpl. by apply IH, foldl_add_qname_keeps, add_qname_keeps.
Qed.

(** In the serialized form of an element of the process namespace, ns0 is
    the prefix of that namespace. *)
Lemma namespaces_process stage :
  q_uri (tag stage) = process_ns ->
  assoc process_ns (_namespaces stage) = Some "ns0".
Proof.
  intros Huri. unfold _namespaces. destruct stage as [[uri local] a t ch tl].
  simpl in Huri. subst uri. simpl.
  apply namespaces_step_keeps, foldl_add_qname_keeps. reflexivity.
Qed.

Lemma contains_replaced c r s :
  contains_char c r = false -> contains_char c (replace_char c r s) = false.
Proof.
  intros Hr. induction s as [|a s IH]; [done|].
  simpl. destruct (Ascii.eqb_spec a c) as [->|Hne].
  - by rewrite contains_char_app, Hr, IH.
  - simpl. rewrite IH. by destruct (Ascii.eqb_spec a c).
Qed.

Lemma contains_replace_other c d r s :
  contains_char c s = false -> contains_char c r = false ->
  contains_char c (replace_char d r s) = false.
Proof.
  intros Hs Hr. induction s as [|a s IH]; [done|].
  simpl in *. apply orb_false_elim in Hs as [Ha Hs].
  destruct (Ascii.eqb a d).
  - by rewrite contains_char_app, Hr, IH.
  - simpl. by rewrite Ha, IH.
Qed.

Lemma escape_cdata_no_lt t : contains_char "<" (_escape_cdata t) = false.
Proof.
  unfold _escape_cdata.
  apply contains_replace_other; [|done]. by apply contains_replaced.
Qed.

Lemma escape_attrib_no_lt t : contains_char "<" (_escape_attrib t) = false.
Proof.
  unfold _escape_attrib.
  do 4 (apply contains_replace_other; [|done]). apply escape_cdata_no_lt.
Qed.

Lemma search_skip_char p c s :
  match_at p (String c s) = None -> search p (String c s) = search p s.
Proof. intros H. simpl. by rewrite H. Qed.

Lemma search_match_at p s r : match_at p s = Some r -> search p s = Some r.
Proof. intros H. destruct s; simpl; by rewrite H. Qed.

(** A stretch of text without [<] holds no start of a match. *)
Lemma search_skip_no_lt p o t r :
  p_open p = String "<" o ->
  contains_char "<" t = false ->
  search p (t +:+ r) = search p r.
Proof.
  intros Ho. induction t as [|c t IH]; intros Ht; [done|].
  simpl in Ht. apply orb_false_elim in Ht as [Hc Ht].
  rewrite str_app_cons, search_skip_char; [by apply IH|].
  unfold match_at. rewrite Ho. cbn [strip_prefix].
  rewrite Ascii.eqb_sym in Hc. by rewrite Hc.
Qed.

Lemma lazy_until_no_lt c' g rest :
  contains_char "<" g = false ->
  lazy_until true (String "<" c') (g +:+ String "<" c' +:+ rest)
  = Some (g, rest).
Proof.
  induction g as [|x g IH]; intros Hg.
  - rewrite str_app_nil_l.
    change (String "<" c' +:+ rest) with (String "<" (c' +:+ rest)).
    cbn [lazy_until strip_prefix].
    by rewrite Ascii.eqb_refl, strip_prefix_app.
  - cbn [contains_char] in Hg. apply orb_false_elim in Hg as [Hx Hg].
    rewrite str_app_cons. cbn [lazy_until strip_prefix negb andb].
    rewrite Ascii.eqb_sym in Hx. rewrite Hx, IH by done. done.
Qed.

Lemma element_nested_ind (P : element -> Prop) :
  (forall t a tx ch tl, Forall P ch -> P (Element t a tx ch tl)) ->
  forall e, P e.
Proof.
  intros H. fix IH 1. intros [t a tx ch tl]. apply H.
  induction ch as [|c ch IHch]; constructor; [apply IH|exact IHch].
Qed.

Lemma serialize_xml_unfold qnames decls e :
  _serialize_xml qnames decls e
  = "<" +:+ encode_qname qnames (tag e)
    +:+ concat_str (xmlns_decl <$> sort_on_prefix decls)
    +:+ attrs_text qnames e +:+ element_content qnames e.
Proof. by destruct e. Qed.

Lemma serialize_xml_child qnames e :
  _serialize_xml qnames [] e
  = String "<" ((encode_qname qnames (tag e) +:+ attrs_text qnames e)
                +:+ element_content qnames e).
Proof. rewrite str_app_assoc. by destruct e. Qed.

Lemma findall_skip_no_lt p o t r :
  p_open p = String "<" o ->
  contains_char "<" t = false ->
  findall p (t +:+ r) = findall p r.
Proof.
  intros Ho Ht.
  rewrite (findall_unfold p (t +:+ r)), (findall_unfold p r)
    by (by rewrite Ho).
  by rewrite (search_skip_no_lt p o).
Qed.

Lemma findall_skip_char p c s :
  p_open p <> "" ->
  match_at p (String c s) = None ->
  findall p (String c s) = findall p s.
Proof.
  intros Ho H.
  rewrite (findall_unfold p (String c s)), (findall_unfold p s) by done.
  by rewrite search_skip_char.
Qed.

Lemma findall_match_at p s g rest :
  p_open p <> "" ->
  match_at p s = Some (g, rest) ->
  findall p s = g :: findall p rest.
Proof.
  intros Ho H. rewrite (findall_unfold p s) by done.
  by rewrite (search_match_at p s (g, rest)).
Qed.

(** The scan of the children of an element, from the scan of each child *)
Lemma scan_children p qnames (role : element -> option string) ch R :
  Forall (fun c => forall R,
            findall p (_serialize_xml qnames [] c +:+ R)
            = omap role (iter c) ++ findall p R) ch ->
  findall p (concat_str (map (_serialize_xml qnames []) ch) +:+ R)
  = omap role (flat_map iter ch) ++ findall p R.
Proof.
  induction 1 as [|c ch Hc _ IH]; [done|].
  simpl. rewrite str_app_assoc, Hc, IH, omap_app. by rewrite <- app_assoc.
Qed.

(** The scan of what follows the start tag of an element *)
Lemma scan_content p o qnames (role : element -> option string) e R :
  p_open p = String "<" o ->
  (forall W, match_at p (String "<" (String "/" W)) = None) ->
  contains_char "<" (encode_qname qnames (tag e)) = false ->
  Forall (fun c => forall R,
            findall p (_serialize_xml qnames [] c +:+ R)
            = omap role (iter c) ++ findall p R) (children e) ->
  findall p (element_content qnames e +:+ R)
  = omap role (flat_map iter (children e)) ++ findall p R.
Proof.
  intros Ho Hslash Ht Hch. unfold element_content.
  assert (p_open p <> "") as Hne by (by rewrite Ho).
  rewrite !str_app_assoc.
  destruct (bool_decide (text e = "") && bool_decide (children e = []))
    eqn:Hempty.
  - apply andb_true_iff in Hempty as [_ Hnil%bool_decide_eq_true].
    rewrite Hnil. simpl.
    rewrite (findall_skip_no_lt p o " />" _ Ho) by done.
    by rewrite (findall_skip_no_lt p o _ _ Ho) by apply escape_cdata_no_lt.
  - rewrite !str_app_assoc.
    rewrite (findall_skip_no_lt p o ">" _ Ho) by done.
    rewrite (findall_skip_no_lt p o _ _ Ho) by apply escape_cdata_no_lt.
    rewrite (scan_children p qnames role) by done. f_equal.
    change ("</" +:+ ?x) with (String "<" (String "/" x)).
    rewrite findall_skip_char by done.
    change (String "/" ?x) with ("/" +:+ x).
    rewrite (findall_skip_no_lt p o "/" _ Ho) by done.
    rewrite (findall_skip_no_lt p o _ _ Ho) by done.
    rewrite (findall_skip_no_lt p o ">" _ Ho) by done.
    by rewrite (findall_skip_no_lt p o _ _ Ho) by apply escape_cdata_no_lt.
Qed.

(** The scan of an element and its descendants: every element either
    starts no match ([role] gives nothing) or is a match from its start tag
    to its end tag, with the group [role] gives. *)
Lemma scan_element p o qnames (role : element -> option string)
  (ok : element -> Prop) :
  p_open p = String "<" o ->
  (forall W, match_at p (String "<" (String "/" W)) = None) ->
  (forall e, ok e ->
     contains_char "<" (encode_qname qnames (tag e) +:+ attrs_text qnames e)
     = false) ->
  (forall e W, ok e -> role e = None ->
     match_at p (_serialize_xml qnames [] e +:+ W) = None) ->
  (forall e g W, ok e -> role e = Some g ->
     children e = []
     /\ match_at p (_serialize_xml qnames [] e +:+ W)
        = Some (g, _escape_cdata (tail e) +:+ W)) ->
  forall e, Forall ok (iter e) ->
  forall R,
    findall p (_serialize_xml qnames [] e +:+ R)
    = omap role (iter e) ++ findall p R.
Proof.
  intros Ho Hslash Hlt Hnone Hsome.
  assert (p_open p <> "") as Hne by (by rewrite Ho).
  induction e as [t a tx ch tl IH] using element_nested_ind.
  intros Hok R. set (e := Element t a tx ch tl) in *.
  change (iter e) with (e :: flat_map iter ch) in *.
  apply Forall_cons in Hok as [Hoke Hokch].
  cbn [omap list_omap]. destruct (role e) as [g|] eqn:Hrole.
  - destruct (Hsome e g R Hoke Hrole) as [Hnil Hm].
    change (children e) with ch in Hnil. subst ch.
    rewrite (findall_match_at p _ g _ Hne Hm).
    rewrite (findall_skip_no_lt p o _ _ Ho) by apply escape_cdata_no_lt.
    reflexivity.
  - pose proof (Hnone e R Hoke Hrole) as Hm.
    rewrite serialize_xml_child in Hm |- *. rewrite str_app_cons in Hm |- *.
    rewrite findall_skip_char by done.
    rewrite str_app_assoc.
    rewrite (findall_skip_no_lt p o _ _ Ho) by (by apply Hlt).
    apply (scan_content p o qnames role e R Ho Hslash).
    + specialize (Hlt e Hoke). rewrite contains_char_app in Hlt.
      by apply orb_false_elim in Hlt as [? _].
    + change (children e) with ch.
      clear -IH Hokch. induction IH as [|c ch Hc _ IHch]; [done|].
      simpl in Hokch. apply Forall_app in Hokch as [Hokc Hokch].
      constructor; [by apply Hc|by apply IHch].
Qed.
Lemma scan_children_of p o qnames (role : element -> option string)
  (ok : element -> Prop) ch :
  p_open p = String "<" o ->
  (forall W, match_at p (String "<" (String "/" W)) = None) ->
  (forall e, ok e ->
     contains_char "<" (encode_qname qnames (tag e) +:+ attrs_text qnames e)
     = false) ->
  (forall e W, ok e -> role e = None ->
     match_at p (_serialize_xml qnames [] e +:+ W) = None) ->
  (forall e g W, ok e -> role e = Some g ->
     children e = []
     /\ match_at p (_serialize_xml qnames [] e +:+ W)
        = Some (g, _escape_cdata (tail e) +:+ W)) ->
  Forall ok (flat_map iter ch) ->
  Forall (fun c => forall R,
            findall p (_serialize_xml qnames [] c +:+ R)
            = omap role (iter c) ++ findall p R) ch.
Proof.
  intros Ho Hslash Hlt Hnone Hsome.
  induction ch as [|c ch IH]; intros Hok; [done|].
  simpl in Hok. apply Forall_app in Hok as [Hc Hch].
  constructor; [|by apply IH].
  by apply (scan_element p o qnames role ok).
Qed.

(** The scan of a serialized element whose own start tag starts no
    match: the groups are those of its descendants, in document order. *)
Lemma scan_root p o (role : element -> option string) (ok : element -> Prop)
  stage :
  p_open p = String "<" o ->
  (forall W, match_at p (String "<" (String "/" W)) = None) ->
  (forall e, ok e ->
     contains_char "<" (encode_qname (_namespaces stage) (tag e)
                        +:+ attrs_text (_namespaces stage) e) = false) ->
  (forall e W, ok e -> role e = None ->
     match_at p (_serialize_xml (_namespaces stage) [] e +:+ W) = None) ->
  (forall e g W, ok e -> role e = Some g ->
     children e = []
     /\ match_at p (_serialize_xml (_namespaces stage) [] e +:+ W)
        = Some (g, _escape_cdata (tail e) +:+ W)) ->
  contains_char "<"
    (encode_qname (_namespaces stage) (tag stage)
     +:+ concat_str (xmlns_decl <$> sort_on_prefix (_namespaces stage))
     +:+ attrs_text (_namespaces stage) stage) = false ->
  match_at p (tostring stage) = None ->
  Forall ok (flat_map iter (children stage)) ->
  findall p (tostring stage)
  = omap role (flat_map iter (children stage)).
Proof.
  intros Ho Hslash Hlt Hnone Hsome Hstart Hm Hok.
  assert (p_open p <> "") as Hne by (by rewrite Ho).
  unfold tostring in *. rewrite serialize_xml_unfold in Hm |- *.
  change ("<" +:+ ?x) with (String "<" x) in Hm |- *.
  rewrite findall_skip_char by done.
  match goal with
  | |- findall p (?t +:+ ?D +:+ ?A +:+ ?C) = _ =>
      replace (t +:+ D +:+ A +:+ C) with ((t +:+ D +:+ A) +:+ C +:+ "")
        by (by rewrite !str_app_assoc, str_app_nil_r)
  end.
  rewrite (findall_skip_no_lt p o _ _ Ho) by done.
  rewrite (scan_content p o _ role stage "" Ho Hslash).
  - rewrite (findall_unfold p "") by done.
    assert (search p "" = None) as ->.
    { simpl. unfold match_at. by rewrite Ho. }
    by rewrite app_nil_r.
  - rewrite !contains_char_app in Hstart.
    by apply orb_false_elim in Hstart as [? _].
  - by apply (scan_children_of p o _ role ok).
Qed.


Lemma attrs_text_head qnames e :
  attrs_text qnames e = ""
  \/ exists W, attrs_text qnames e = String " " W.
Proof.
  unfold attrs_text. destruct (attrib e) as [|kv a]; [by left|].
  right. simpl. unfold attr_decl at 1. rewrite !str_app_assoc. by eexists.
Qed.

Lemma attrs_text_nil qnames e : attrs_text qnames e = "" -> attrib e = [].
Proof.
  unfold attrs_text. destruct (attrib e) as [|kv a]; [done|].
  simpl. unfold attr_decl at 1. rewrite !str_app_assoc. done.
Qed.

Lemma element_content_head qnames e :
  exists c W, (c = " " \/ c = ">")%char /\ element_content qnames e = String c W.
Proof.
  unfold element_content.
  destruct (bool_decide (text e = "") && bool_decide (children e = [])).
  - exists " "%char. eexists. split; [by left|]. by rewrite str_app_cons.
  - exists ">"%char. eexists. split; [by right|].
    rewrite !str_app_assoc. by rewrite str_app_cons.
Qed.

(** What follows the name in a start tag begins with a space or with [>]. *)
Lemma after_name_head qnames e R :
  exists c W,
    (c = " " \/ c = ">")%char
    /\ attrs_text qnames e +:+ element_content qnames e +:+ R = String c W.
Proof.
  destruct (attrs_text_head qnames e) as [->|[W ->]].
  - destruct (element_content_head qnames e) as (c & W & Hc & ->).
    exists c. eexists. split; [done|].
    by rewrite str_app_nil_l, str_app_cons.
  - exists " "%char. eexists. split; [by left|]. by rewrite str_app_cons.
Qed.


Lemma lazy_until_group d c' g rest :
  contains_char "<" g = false ->
  (d = false -> contains_char newline g = false) ->
  lazy_until d (String "<" c') (g +:+ String "<" c' +:+ rest)
  = Some (g, rest).
Proof.
  induction g as [|x g IH]; intros Hg Hnl.
  - rewrite str_app_nil_l.
    change (String "<" c' +:+ rest) with (String "<" (c' +:+ rest)).
    cbn [lazy_until strip_prefix].
    by rewrite Ascii.eqb_refl, strip_prefix_app.
  - cbn [contains_char] in Hg. apply orb_false_elim in Hg as [Hx Hg].
    rewrite str_app_cons. cbn [lazy_until strip_prefix].
    rewrite Ascii.eqb_sym in Hx. rewrite Hx.
    assert (negb d && Ascii.eqb x newline = false) as ->.
    { destruct d; [done|]. specialize (Hnl eq_refl). simpl in Hnl.
      by apply orb_false_elim in Hnl as [-> _]. }
    rewrite IH; [done..|].
    intros ->. specialize (Hnl eq_refl). simpl in Hnl.
    by apply orb_false_elim in Hnl as [_ ?].
Qed.

Lemma strip_prefix_exact k t c W r :
  contains_char ">" t = false ->
  contains_char c k = false ->
  strip_prefix (k +:+ ">") (t +:+ String c W) = Some r ->
  t = k /\ c = ">"%char /\ r = W.
Proof.
  revert t. induction k as [|a k IH]; intros t Ht Hc H.
  - rewrite str_app_nil_l in H. destruct t as [|b t].
    + rewrite str_app_nil_l in H. cbn [strip_prefix] in H.
      destruct (Ascii.eqb_spec ">" c) as [<-|]; [|done].
      by injection H as <-.
    + rewrite str_app_cons in H. cbn [strip_prefix] in H.
      simpl in Ht. apply orb_false_elim in Ht as [Hb _].
      rewrite Ascii.eqb_sym in Hb. by rewrite Hb in H.
  - simpl in Hc. apply orb_false_elim in Hc as [Hac Hc].
    rewrite str_app_cons in H. destruct t as [|b t].
    + rewrite str_app_nil_l in H. cbn [strip_prefix] in H.
      by rewrite Hac in H.
    + rewrite str_app_cons in H. cbn [strip_prefix] in H.
      simpl in Ht. apply orb_false_elim in Ht as [_ Ht].
      destruct (Ascii.eqb_spec a b) as [<-|]; [|done].
      destruct (IH t Ht Hc H) as (-> & -> & ->). done.
Qed.

Lemma lazy_until_newline c' g rest :
  contains_char "<" g = false ->
  contains_char newline g = true ->
  lazy_until false (String "<" c') (g +:+ rest) = None.
Proof.
  induction g as [|x g IH]; intros Hlt Hnl; [done|].
  simpl in Hlt, Hnl. apply orb_false_elim in Hlt as [Hx Hlt].
  rewrite str_app_cons. cbn [lazy_until strip_prefix].
  rewrite Ascii.eqb_sym in Hx. rewrite Hx. cbn [negb andb].
  destruct (Ascii.eqb x newline); [done|].
  by rewrite IH.
Qed.

Lemma role_language_none qnames e W :
  scan_ok_language qnames e ->
  role_language e = None ->
  match_at language_pattern (_serialize_xml qnames [] e +:+ W) = None.
Proof.
  intros (_ & Hgt & Hlang) Hrole.
  rewrite serialize_xml_child, str_app_cons, !str_app_assoc.
  unfold match_at. simpl p_open. simpl p_attrs. simpl p_close.
  simpl p_dotall. cbv iota.
  change (strip_prefix "<ns0:language>" (String "<" ?x))
    with (strip_prefix ("ns0:language" +:+ ">") x).
  destruct (after_name_head qnames e W) as (c & W' & Hc & Hrest).
  rewrite Hrest.
  destruct (strip_prefix _ _) as [r|] eqn:Hr; [|done].
  apply strip_prefix_exact in Hr as (Ht & -> & ->);
    [|done|by destruct Hc as [->| ->]].
  destruct (Hlang Ht) as [Htag Hnil].
  destruct (attrs_text_head qnames e) as [Ha|[A Ha]];
    rewrite Ha in Hrest; [|by rewrite str_app_cons in Hrest].
  apply attrs_text_nil in Ha. rewrite str_app_nil_l in Hrest.
  unfold element_content in Hrest. rewrite Hnil in Hrest.
  destruct (decide (text e = "")) as [Htext|Htext].
  { rewrite Htext in Hrest. by rewrite !str_app_cons in Hrest. }
  assert (bool_decide (text e = "") = false) as Hb
    by (by apply bool_decide_eq_false).
  rewrite Hb in Hrest. cbn [andb map concat_str] in Hrest.
  rewrite Ht, !str_app_assoc, str_app_nil_l in Hrest.
  rewrite str_app_cons, str_app_nil_l in Hrest. injection Hrest as <-.
  unfold role_language in Hrole.
  destruct (contains_char newline (_escape_cdata (text e))) eqn:Hnl.
  - change ("</" +:+ "ns0:language" +:+ ">" +:+ ?x)
      with (String "<" "/ns0:language>" +:+ x).
    apply lazy_until_newline; [apply escape_cdata_no_lt|done].
  - by rewrite decide_True in Hrole.
Qed.

Lemma role_language_some qnames e g W :
  encode_qname qnames (QName process_ns "language") = "ns0:language" ->
  scan_ok_language qnames e ->
  role_language e = Some g ->
  children e = []
  /\ match_at language_pattern (_serialize_xml qnames [] e +:+ W)
     = Some (g, _escape_cdata (tail e) +:+ W).
Proof.
  intros Hname (_ & _ & Hlang) Hrole. unfold role_language in Hrole.
  destruct (decide _) as [(Htag & Hattr & Htext & Hnl)|]; [|done].
  injection Hrole as <-.
  rewrite Htag, Hname in Hlang.
  destruct (Hlang eq_refl) as [_ Hnil]. split; [done|].
  rewrite serialize_xml_child. unfold element_content, attrs_text.
  rewrite Htag, Hname, Hnil, Hattr.
  assert (bool_decide (text e = "") = false) as ->
    by (by apply bool_decide_eq_false).
  cbn [andb map fmap list_fmap concat_str].
  rewrite !str_app_assoc, ?str_app_nil_l, ?str_app_nil_r.
  unfold match_at. simpl p_open. simpl p_attrs. simpl p_close.
  simpl p_dotall. cbv iota.
  change (String "<" ("ns0:language" +:+ ">" +:+ ?x))
    with ("<ns0:language>" +:+ x).
  rewrite !str_app_assoc, strip_prefix_app.
  change ("</" +:+ "ns0:language" +:+ ">" +:+ ?x)
    with (String "<" "/ns0:language>" +:+ x).
  apply lazy_until_group; [apply escape_cdata_no_lt|done].
Qed.
Lemma first_char_split c t t' r r' :
  contains_char c t = false -> contains_char c t' = false ->
  t +:+ String c r = t' +:+ String c r' -> t = t' /\ r = r'.
Proof.
  revert t'. induction t as [|a t IH]; intros [|a' t'] Ht Ht' Heq.
  - split; [done|]. by injection Heq.
  - rewrite str_app_cons, str_app_nil_l in Heq. injection Heq as <- _.
    simpl in Ht'. by rewrite Ascii.eqb_refl in Ht'.
  - rewrite str_app_cons, str_app_nil_l in Heq. injection Heq as -> _.
    simpl in Ht. by rewrite Ascii.eqb_refl in Ht.
  - rewrite !str_app_cons in Heq. injection Heq as -> Heq. simpl in *.
    apply orb_false_elim in Ht as [_ Ht]. apply orb_false_elim in Ht' as [_ Ht'].
    destruct (IH _ Ht Ht' Heq) as [-> ->]. done.
Qed.

Lemma xml_name_spec n :
  xml_name n = true <->
  contains_char "<" n = false /\ contains_char ">" n = false
  /\ contains_char ":" n = false.
Proof.
  unfold xml_name. rewrite negb_true_iff, !orb_false_iff. tauto.
Qed.

Lemma xml_name_pretty_N_go x s :
  xml_name s = true -> xml_name (pretty_N_go x s) = true.
Proof.
  revert s. induction (N.lt_wf_0 x) as [x _ IH]; intros s Hs.
  assert (x = 0 \/ 0 < x)%N as [->|Hx] by lia.
  - by rewrite pretty_N_go_0.
  - rewrite pretty_N_go_step by done. apply IH; [by apply N.div_lt|].
    apply xml_name_spec in Hs as (H1 & H2 & H3). apply xml_name_spec.
    simpl. rewrite H1, H2, H3. unfold pretty_N_char. by repeat case_match.
Qed.

Lemma xml_name_pretty_nat (n : nat) : xml_name (pretty n) = true.
Proof.
  unfold pretty, pretty_nat, pretty, pretty_N. case_decide; [done|].
  by apply xml_name_pretty_N_go.
Qed.

(** The prefix the serializer makes up for the [n]-th namespace *)
Lemma fresh_prefix_ok (n : nat) :
  prefix_ok ("ns" +:+ pretty n) /\ ("ns" +:+ pretty n = "ns0" -> n = 0).
Proof.
  split.
  - pose proof (xml_name_pretty_nat n) as (H1 & H2 & H3)%xml_name_spec.
    unfold prefix_ok. rewrite !contains_char_app, H1, H2, H3. by repeat split.
  - intros H. apply (inj (String.app "ns")) in H.
    by apply (inj pretty n 0).
Qed.

Lemma namespace_map_prefix u p :
  assoc u _namespace_map = Some p -> prefix_ok p /\ p <> "ns0".
Proof.
  unfold _namespace_map. simpl.
  repeat case_decide; intros [= <-]; by repeat split.
Qed.

Lemma assoc_app_inv k l l' v :
  assoc k (l ++ l') = Some v ->
  assoc k l = Some v \/ assoc k l' = Some v.
Proof.
  induction l as [|[k' v'] l IH]; [by right|].
  simpl. destruct (decide (k' = k)); [by left|]. exact IH.
Qed.

Lemma ns_table_ok_add ns q : ns_table_ok ns -> ns_table_ok (add_qname ns q).
Proof.
  intros (Hns0 & Hall & Hfor). unfold add_qname.
  destruct (decide (q_uri q = "")); [done|].
  destruct (assoc (q_uri q) ns); [done|].
  case_decide; [done|].
  assert (ns <> []) as Hne by (by intros ->).
  assert (exists prefix,
            match assoc (q_uri q) _namespace_map with
            | Some p => p
            | None => "ns" +:+ pretty (length ns)
            end = prefix
            /\ prefix_ok prefix /\ prefix <> "ns0")
    as (prefix & -> & Hok & Hns).
  { destruct (assoc (q_uri q) _namespace_map) as [p|] eqn:Hp.
    - exists p. split; [done|]. by apply (namespace_map_prefix (q_uri q)).
    - eexists. split; [done|].
      destruct (fresh_prefix_ok (length ns)) as [Hok H0]. split; [done|].
      intros Hp0%H0. by destruct ns. }
  split; [by apply assoc_app_Some|]. split.
  - intros u p [Hp|Hp]%assoc_app_inv; [by apply Hall|].
    simpl in Hp. case_decide; [|done]. injection Hp as <-. by split.
  - apply Forall_app. split; [done|]. by constructor.
Qed.

Lemma ns_table_ok_foldl qs ns :
  ns_table_ok ns -> ns_table_ok (foldl add_qname ns qs).
Proof.
  revert ns. induction qs as [|q qs IH]; intros ns H; [done|].
  simpl. by apply IH, ns_table_ok_add.
Qed.

Lemma ns_table_ok_step ds ns :
  ns_table_ok ns ->
  ns_table_ok (foldl (fun ns d =>
                        foldl add_qname (add_qname ns (tag d)) (attrib d).*1)
                     ns ds).
Proof.
  revert ns. induction ds as [|d ds IH]; intros ns H; [done|].
  simpl. by apply IH, ns_table_ok_foldl, ns_table_ok_add.
Qed.

(** The namespace table of an element of the process namespace *)
Lemma namespaces_table_ok stage :
  q_uri (tag stage) = process_ns -> ns_table_ok (_namespaces stage).
Proof.
  intros Huri. unfold _namespaces. destruct stage as [[uri local] a t ch tl].
  simpl in Huri. subst uri. simpl.
  apply ns_table_ok_step, ns_table_ok_foldl.
  change (add_qname [] (QName process_ns local)) with [(process_ns, "ns0")].
  split; [done|]. split.
  - intros u p. simpl. case_decide; [|done]. intros [= <-]. by repeat split.
  - constructor; [by repeat split|done].
Qed.

(** The serialized form of a qualified name: the local name alone, or a
    prefix, a colon and the local name. *)
Lemma encode_qname_shape ns q :
  ns_table_ok ns ->
  (q_uri q = "" /\ encode_qname ns q = q_local q)
  \/ exists prefix,
       encode_qname ns q = prefix +:+ ":" +:+ q_local q
       /\ prefix_ok prefix /\ (prefix = "ns0" -> q_uri q = process_ns).
Proof.
  intros (Hns0 & Hall & _). unfold encode_qname.
  destruct (decide (q_uri q = "")); [by left|]. right.
  assert (exists prefix,
            match assoc (q_uri q) ns with
            | Some p => p
            | None =>
                match assoc (q_uri q) _namespace_map with
                | Some p => p
                | None => "ns" +:+ pretty (length ns)
                end
            end = prefix
            /\ prefix_ok prefix /\ (prefix = "ns0" -> q_uri q = process_ns))
    as (prefix & -> & Hok & Hp).
  { destruct (assoc (q_uri q) ns) as [p|] eqn:Hp.
    { exists p. split; [done|]. by apply Hall. }
    destruct (assoc (q_uri q) _namespace_map) as [p|] eqn:Hwk.
    { exists p. split; [done|].
      destruct (namespace_map_prefix _ _ Hwk). by split. }
    eexists. split; [done|].
    destruct (fresh_prefix_ok (length ns)) as [Hok H0]. split; [done|].
    intros H%H0. destruct ns; [done|]. done. }
  exists prefix. destruct Hok as [Hne Hok].
  by rewrite decide_False.
Qed.

Lemma encode_qname_process ns local :
  ns_table_ok ns -> encode_qname ns (QName process_ns local) = "ns0:" +:+ local.
Proof.
  intros (Hns0 & _). unfold encode_qname. simpl. by rewrite Hns0.
Qed.

Lemma encode_qname_no_lt_gt ns q :
  ns_table_ok ns -> xml_name (q_local q) = true ->
  contains_char "<" (encode_qname ns q) = false
  /\ contains_char ">" (encode_qname ns q) = false.
Proof.
  intros Hns (H1 & H2 & _)%xml_name_spec.
  destruct (encode_qname_shape ns q Hns)
    as [[_ ->]|(prefix & -> & (_ & P1 & P2 & _) & _)]; [done|].
  rewrite !contains_char_app, P1, P2, H1, H2. done.
Qed.

Lemma startswith_Some s t : startswith s t = true -> exists r, s = t +:+ r.
Proof.
  unfold startswith. destruct (strip_prefix t s) as [r|] eqn:H; [|done].
  intros _. exists r. by apply strip_prefix_Some.
Qed.

Lemma startswith_app t r : startswith (t +:+ r) t = true.
Proof. unfold startswith. by rewrite strip_prefix_app. Qed.

(** A serialized name that begins with ns0:code is the name of an element
    of the process namespace whose local name begins with code. *)
Lemma encode_qname_code_like ns q :
  ns_table_ok ns -> xml_name (q_local q) = true ->
  startswith (encode_qname ns q) "ns0:code" = true ->
  q_uri q = process_ns /\ startswith (q_local q) "code" = true.
Proof.
  intros Hns (_ & _ & H3)%xml_name_spec [r Hr]%startswith_Some.
  destruct (encode_qname_shape ns q Hns)
    as [[_ Heq]|(prefix & Heq & (_ & _ & _ & P3) & Hp)]; rewrite Heq in Hr.
  - rewrite Hr in H3. done.
  - change ("ns0:code" +:+ r) with ("ns0" +:+ String ":" ("code" +:+ r)) in Hr.
    apply first_char_split in Hr as [-> ->]; [|done..].
    split; [by apply Hp|apply startswith_app].
Qed.

Lemma encode_qname_language ns q :
  ns_table_ok ns -> xml_name (q_local q) = true ->
  encode_qname ns q = "ns0:language" ->
  q = QName process_ns "language".
Proof.
  intros Hns (_ & _ & H3)%xml_name_spec Hr.
  destruct (encode_qname_shape ns q Hns)
    as [[_ Heq]|(prefix & Heq & (_ & _ & _ & P3) & Hp)]; rewrite Heq in Hr.
  - rewrite Hr in H3. done.
  - change "ns0:language" with ("ns0" +:+ String ":" "language") in Hr.
    apply first_char_split in Hr as [-> Hl]; [|done..].
    destruct q as [u l]. simpl in *. by rewrite Hl, Hp.
Qed.

Lemma escape_cdata_no_gt t : contains_char ">" (_escape_cdata t) = false.
Proof. unfold _escape_cdata. by apply contains_replaced. Qed.

Lemma escape_attrib_no_gt t : contains_char ">" (_escape_attrib t) = false.
Proof.
  unfold _escape_attrib.
  do 4 (apply contains_replace_other; [|done]). apply escape_cdata_no_gt.
Qed.

Lemma attrs_text_no_lt_gt ns e :
  ns_table_ok ns ->
  Forall (fun kv : qname * string => xml_name (q_local kv.1) = true)
         (attrib e) ->
  contains_char "<" (attrs_text ns e) = false
  /\ contains_char ">" (attrs_text ns e) = false.
Proof.
  intros Hns. unfold attrs_text.
  induction 1 as [|kv a Hkv _ [IH1 IH2]]; [done|].
  destruct (encode_qname_no_lt_gt ns kv.1 Hns Hkv) as [E1 E2].
  simpl. unfold attr_decl.
  rewrite !contains_char_app, E1, E2, escape_attrib_no_lt, escape_attrib_no_gt.
  by split.
Qed.

Lemma Forall_insert_sorted (P : string * string -> Prop) x l :
  P x -> Forall P l -> Forall P (insert_sorted x l).
Proof.
  intros Hx. induction 1 as [|y l Hy Hl IH]; simpl.
  - by constructor.
  - destruct (String.leb x.2 y.2); repeat constructor; done.
Qed.

Lemma Forall_sort_on_prefix (P : string * string -> Prop) l :
  Forall P l -> Forall P (sort_on_prefix l).
Proof.
  induction 1 as [|x l Hx Hl IH]; [done|].
  simpl. by apply Forall_insert_sorted.
Qed.

Lemma xmlns_decls_no_lt ns :
  ns_table_ok ns ->
  contains_char "<" (concat_str (xmlns_decl <$> sort_on_prefix ns)) = false.
Proof.
  intros (_ & _ & Hfor). apply (Forall_sort_on_prefix _ _) in Hfor.
  induction Hfor as [|[u p] l (_ & Hp & _) _ IH]; [done|]. simpl in Hp.
  change (concat_str (xmlns_decl <$> (u, p) :: l))
    with (xmlns_decl (u, p) +:+ concat_str (xmlns_decl <$> l)).
  rewrite contains_char_app, IH. unfold xmlns_decl. cbn [fst snd].
  rewrite !contains_char_app, escape_attrib_no_lt.
  case_decide; [done|]. by rewrite contains_char_app, Hp.
Qed.
Lemma replace_char_absent c r s :
  contains_char c s = false -> replace_char c r s = s.
Proof.
  induction s as [|a s IH]; [done|].
  simpl. intros [Ha Hs]%orb_false_elim. by rewrite Ha, IH.
Qed.

(** A text without &, < and > is serialized as it is. *)
Lemma escape_cdata_plain t : no_markup t = true -> _escape_cdata t = t.
Proof.
  unfold no_markup. rewrite negb_true_iff, !orb_false_iff.
  intros [[H1 H2] H3]. unfold _escape_cdata.
  by rewrite (replace_char_absent "&"), (replace_char_absent "<"),
    (replace_char_absent ">").
Qed.

Lemma language_of_head s :
  language_of s = default "unknown" (head (findall language_pattern s)).
Proof.
  unfold language_of. rewrite findall_unfold by done.
  by destruct (search language_pattern s) as [[g rest]|].
Qed.

Lemma plain_stage_start stage :
  tag stage = QName process_ns "stage" -> well_named stage ->
  contains_char "<"
    (encode_qname (_namespaces stage) (tag stage)
     +:+ concat_str (xmlns_decl <$> sort_on_prefix (_namespaces stage))
     +:+ attrs_text (_namespaces stage) stage) = false.
Proof.
  intros Htag [Hname Hattrs].
  assert (ns_table_ok (_namespaces stage)) as Hns
    by (apply namespaces_table_ok; by rewrite Htag).
  destruct (encode_qname_no_lt_gt _ (tag stage) Hns Hname) as [E _].
  destruct (attrs_text_no_lt_gt _ stage Hns Hattrs) as [A _].
  by rewrite !contains_char_app, E, A, xmlns_decls_no_lt.
Qed.

Lemma plain_stage_scan_ok stage :
  tag stage = QName process_ns "stage" -> plain_stage stage ->
  Forall (fun d => scan_ok_code (_namespaces stage) d
                   /\ scan_ok_language (_namespaces stage) d)
         (flat_map iter (children stage)).
Proof.
  intros Htag [_ Hall].
  assert (ns_table_ok (_namespaces stage)) as Hns
    by (apply namespaces_table_ok; by rewrite Htag).
  eapply Forall_impl; [exact Hall|].
  intros d ([Hname Hattrs] & Hcode & Hlang). simpl.
  destruct (encode_qname_no_lt_gt _ (tag d) Hns Hname) as [E1 E2].
  destruct (attrs_text_no_lt_gt _ d Hns Hattrs) as [A1 A2].
  assert (contains_char "<"
            (encode_qname (_namespaces stage) (tag d)
             +:+ attrs_text (_namespaces stage) d) = false) as Hlt
    by (by rewrite contains_char_app, E1, A1).
  split; (split; [exact Hlt|split; [done|]]).
  - intros [Huri Hs]%encode_qname_code_like; [|done..].
    destruct (Hcode Huri Hs) as (Hlocal & [Hnil _] & Htext).
    destruct (tag d) as [u l]. simpl in *. by subst.
  - intros Heq%encode_qname_language; [|done..].
    split; [done|]. by destruct (Hlang Heq).
Qed.


Lemma omap_role_language l :
  Forall (fun d => tag d = QName process_ns "language" ->
                   no_markup (text d) = true) l ->
  omap role_language l = omap language_text l.
Proof.
  induction 1 as [|d l Hd _ IH]; [done|].
  cbn [omap list_omap]. fold (omap role_language l).
  fold (omap language_text l). rewrite IH.
  assert (role_language d = language_text d) as ->; [|done].
  unfold role_language, language_text.
  destruct (decide (tag d = QName process_ns "language")) as [Ht|Ht].
  - by rewrite escape_cdata_plain by auto.
  - rewrite !decide_False; [done|tauto..].
Qed.


(** The language that [re.search] finds in a plain stage is the language
    the stage declares. *)
Lemma plain_stage_language stage :
  tag stage = QName process_ns "stage" -> plain_stage stage ->
  language_of (tostring stage) = stage_language stage.
Proof.
  intros Htag Hplain.
  assert (ns_table_ok (_namespaces stage)) as Hns
    by (apply namespaces_table_ok; by rewrite Htag).
  pose proof (plain_stage_scan_ok stage Htag Hplain) as Hok.
  rewrite language_of_head. unfold stage_language.
  rewrite (scan_root language_pattern "ns0:language>" role_language
             (scan_ok_language (_namespaces stage))).
  - rewrite omap_role_language; [done|].
    destruct Hplain as [_ Hall]. eapply Forall_impl; [exact Hall|].
    intros d (_ & _ & Hlang) Ht. simpl in Hlang.
    by destruct (Hlang Ht).
  - done.
  - done.
  - by intros e (H & _).
  - intros e W. apply role_language_none.
  - intros e g W. apply role_language_some. by apply encode_qname_process.
  - apply plain_stage_start; [done|]. by destruct Hplain.
  - unfold tostring. rewrite serialize_xml_unfold, Htag.
    by rewrite encode_qname_process.
  - eapply Forall_impl; [exact Hok|]. by intros d [_ ?].
Qed.

(** ** The code extractor: the claims *)

Lemma extract_code_run os ET_parse file_path output_dir content fs root :
  makedirs_error os output_dir = None ->
  fs !! file_path = Some content ->
  ET_parse content = Some root ->
  extract_code_from_robot_release os ET_parse file_path output_dir fs
  = try_writes os (root_writes output_dir root) fs.
Proof.
  intros Hdir Hfile Hparse. unfold extract_code_from_robot_release.
  rewrite Hdir, Hfile, Hparse. apply process_root_writes.
Qed.

(** A run that returns has carried out the writes of a document. *)
Lemma extract_code_returns os ET_parse file_path output_dir fs fs' :
  extract_code_from_robot_release os ET_parse file_path output_dir fs
  = inr fs' ->
  exists content root,
    makedirs_error os output_dir = None
    /\ fs !! file_path = Some content
    /\ ET_parse content = Some root
    /\ Forall (fun w => open_w_error os w.1 = None)
              (root_writes output_dir root)
    /\ fs' = apply_writes (root_writes output_dir root) fs.
Proof.
  unfold extract_code_from_robot_release. intros Hrun.
  destruct (makedirs_error os output_dir); [done|].
  destruct (fs !! file_path) as [content|]; [|done].
  destruct (ET_parse content) as [root|] eqn:Hparse; [|done].
  rewrite process_root_writes in Hrun.
  apply try_writes_inr in Hrun as [Hok ->]. by exists content, root.
Qed.

Lemma stage_language_none stage :
  (forall d, d ∈ flat_map iter (children stage) ->
     tag d <> QName process_ns "language") ->
  stage_language stage = "unknown".
Proof.
  intros H. unfold stage_language.
  assert (omap language_text (flat_map iter (children stage)) = []) as ->;
    [|done].
  induction (flat_map iter (children stage)) as [|d l IH]; [done|].
  cbn [omap list_omap]. fold (omap language_text l).
  unfold language_text at 1. rewrite decide_False.
  - apply IH. intros d' Hd'. apply H. by apply elem_of_cons; right.
  - intros (Ht & _). apply (H d); [|done]. by apply elem_of_cons; left.
Qed.





(** C7.  Running the extraction a second time on the file system the first
    run left, with the input file still holding the same text, writes the
    same files with the same texts as the first run and leaves every file
    as the first run left it. *)
Theorem extract_code_idempotent (os : os_model)
  (ET_parse : string -> option element)
  (file_path output_dir : string) (fs fs1 : gmap string string) :
  extract_code_from_robot_release os ET_parse file_path output_dir fs
  = inr fs1 ->
  fs1 !! file_path = fs !! file_path ->
  exists writes,
    fs1 = apply_writes writes fs
    /\ extract_code_from_robot_release os ET_parse file_path output_dir fs1
       = inr (apply_writes writes fs1)
    /\ apply_writes writes fs1 = fs1.
Proof.
  intros (content & root & Hdir & Hfile & Hparse & Hok & ->)%extract_code_returns
    Hsame.
  exists (root_writes output_dir root). split; [done|]. split.
  - rewrite (extract_code_run _ _ _ _ content _ root); [|done| |done].
    + by apply try_writes_inr.
    + by rewrite Hsame.
  - apply apply_writes_idempotent.
Qed.

Lemma extract_code_idempotent_witness :
  let fs : gmap string string := {[ "release.xml" := main_xml ]} in
  let fs1 := <["out/Main_2.cs" := "B"]> (<["out/Main_1.cs" := "A"]> fs) in
  extract_code_from_robot_release example_os example_parse "release.xml"
    "out" fs = inr fs1
  /\ fs1 !! "release.xml" = fs !! "release.xml"
  /\ exists writes,
       fs1 = apply_writes writes fs
       /\ extract_code_from_robot_release example_os example_parse
            "release.xml" "out" fs1
          = inr (apply_writes writes fs1)
       /\ apply_writes writes fs1 = fs1.
Proof.
  intros fs fs1.
  assert (extract_code_from_robot_release example_os example_parse
            "release.xml" "out" fs = inr fs1) as Hrun by reflexivity.
  assert (fs1 !! "release.xml" = fs !! "release.xml") as Hsame by reflexivity.
  split; [exact Hrun|]. split; [exact Hsame|].
  exact (extract_code_idempotent example_os example_parse "release.xml" "out"
           fs fs1 Hrun Hsame).
Defined.

(** C8.  With the output directory made and the input file there, the run
    ends with the parse error exactly when the text of the file does not
    parse, and then no file has been opened or changed.  When the text
    parses, a missing name or a missing language does not end the run:
    the run returns whenever the operating system lets every file be
    opened, and an exception after parsing is the answer of the operating
    system for a file of a stage.  A stage without name attribute is
    called UnnamedStage; a stage whose serialized form has no language
    element, and so a plain stage without language element, has the
    language "unknown" and files with the extension txt.  The document
    whose stage has neither name nor language gives UnnamedStage_1.txt. *)
Theorem extract_code_errors_and_defaults (os : os_model)
  (ET_parse : string -> option element)
  (file_path output_dir content : string) (fs : gmap string string) :
  makedirs_error os output_dir = None ->
  fs !! file_path = Some content ->
  (ET_parse content = None ->
   extract_code_from_robot_release os ET_parse file_path output_dir fs
   = inl (ParseError, fs))
  /\ (forall fs',
        extract_code_from_robot_release os ET_parse file_path output_dir fs
        = inl (ParseError, fs') ->
        ET_parse content = None /\ fs' = fs)
  /\ (forall root,
        ET_parse content = Some root ->
        ((forall p, p ∈ (root_writes output_dir root).*1 ->
            open_w_error os p = None) ->
         extract_code_from_robot_release os ET_parse file_path output_dir fs
         = inr (apply_writes (root_writes output_dir root) fs))
        /\ (forall e fs',
              extract_code_from_robot_release os ET_parse file_path
                output_dir fs = inl (e, fs') ->
              exists stage i err,
                stage ∈ all_stages root
                /\ i < length (findall code_pattern (tostring stage))
                /\ open_w_error os (stage_path output_dir stage (S i))
                   = Some err
                /\ e = os_exception err))
  /\ (forall stage,
        (forall v, (QName "" "name", v) ∉ attrib stage) ->
        stage_name stage = "UnnamedStage")
  /\ (forall stage,
        (forall a g rest,
           tostring stage
           <> a +:+ "<ns0:language>" +:+ g +:+ "</ns0:language>" +:+ rest) ->
        language_of (tostring stage) = "unknown")
  /\ (forall stage,
        tag stage = QName process_ns "stage" ->
        plain_stage stage ->
        (forall d, d ∈ flat_map iter (children stage) ->
           tag d <> QName process_ns "language") ->
        language_of (tostring stage) = "unknown"
        /\ file_extension (language_of (tostring stage)) = "txt")
  /\ (ET_parse content = Some unnamed_document ->
      open_w_error os (os_path_join output_dir "UnnamedStage_1.txt") = None ->
      extract_code_from_robot_release os ET_parse file_path output_dir fs
      = inr (<[os_path_join output_dir "UnnamedStage_1.txt" := "x = 1"]> fs)).
Proof.
  intros Hdir Hfile. split; [|split; [|split; [|split; [|split; [|split]]]]].
  - intros Hparse. unfold extract_code_from_robot_release.
    by rewrite Hdir, Hfile, Hparse.
  - intros fs'. unfold extract_code_from_robot_release.
    rewrite Hdir, Hfile. destruct (ET_parse content) as [root|]; [|by intros [= <-]].
    rewrite process_root_writes.
    intros (ws1 & w & ws2 & err & _ & _ & _ & He & _)%try_writes_inl.
    by destruct err.
  - intros root Hparse.
    rewrite (extract_code_run _ _ _ _ content _ root) by done. split.
    + intros Hopen. apply try_writes_inr. split; [|done].
      apply Forall_forall. intros w Hw. apply Hopen.
      apply list_elem_of_fmap. by exists w.
    + intros e fs' (ws1 & w & ws2 & err & Hws & _ & Hw & He & _)%try_writes_inl.
      destruct (root_writes_path output_dir root w.1)
        as (stage & i & Hst & Hi & Hp).
      { rewrite Hws. apply list_elem_of_fmap. exists w. split; [done|].
        apply elem_of_app. right. by left. }
      exists stage, i, err. by rewrite <- Hp.
  - intros stage H. by apply get_default.
  - intros stage H. apply language_of_no_match.
    intros a g rest [Heq _]%is_match_language. by eapply H.
  - intros stage Htag Hplain Hnone.
    rewrite (plain_stage_language stage Htag Hplain).
    by rewrite (stage_language_none stage Hnone).
  - intros Hparse Hopen.
    rewrite (extract_code_run _ _ _ _ content _ unnamed_document) by done.
    apply try_writes_inr. split; [|done].
    by repeat constructor.
Qed.

Lemma extract_code_errors_and_defaults_witness :
  let fs : gmap string string := {[ "release.xml" := malformed_xml ]} in
  makedirs_error example_os "out" = None
  /\ fs !! "release.xml" = Some malformed_xml
  /\ example_parse malformed_xml = None
  /\ extract_code_from_robot_release example_os example_parse "release.xml"
       "out" fs = inl (ParseError, fs).
Proof.
  intros fs.
  assert (makedirs_error example_os "out" = None) as Hdir by reflexivity.
  assert (fs !! "release.xml" = Some malformed_xml) as Hfile by reflexivity.
  assert (example_parse malformed_xml = None) as Hparse by reflexivity.
  split; [exact Hdir|]. split; [exact Hfile|]. split; [exact Hparse|].
  exact (proj1 (extract_code_errors_and_defaults example_os example_parse
                  "release.xml" "out" malformed_xml fs Hdir Hfile) Hparse).
Defined.

(** A stage whose name has a slash: the directory out/a is not there, so
    opening out/a/b_1.txt raises FileNotFoundError; the files of the stage
    before it stay.  An empty output directory cannot be made. *)
Example stage_name_with_slash :
  let fs : gmap string string := {[ "release.xml" := main_xml ]} in
  stage_path "out" slash_stage 1 = "out/a/b_1.txt"
  /\ extract_code_from_robot_release example_os
       (fun _ => Some slash_document) "release.xml" "out" fs
     = inl (FileNotFoundError,
            <["out/Main_2.cs" := "B"]> (<["out/Main_1.cs" := "A"]> fs))
  /\ extract_code_from_robot_release example_os example_parse
       "release.xml" "" fs
     = inl (FileNotFoundError, fs).
Proof. by vm_compute. Qed.

(** C9.  The language pattern does not match across line breaks: a stage
    in whose serialized form every language element has a line break in
    its content has the language "unknown", and its files get the
    extension txt.  The code pattern of the same function and the patterns
    of the dependency collector do match across line breaks. *)
Theorem language_not_matched_across_lines (stage : element) :
  (forall a g rest,
     tostring stage
     = a +:+ "<ns0:language>" +:+ g +:+ "</ns0:language>" +:+ rest ->
     contains_char newline g = true) ->
  language_of (tostring stage) = "unknown"
  /\ file_extension (language_of (tostring stage)) = "txt"
  /\ (forall output_dir idx,
        stage_path output_dir stage idx
        = os_path_join output_dir
            (stage_name stage +:+ "_" +:+ pretty idx +:+ ".txt"))
  /\ findall code_pattern (tostring multiline_stage)
     = ["a" +:+ String newline "b"]
  /\ extract_text_between_tags "release.xml"
       {[ "release.xml" :=
            "<reference>a" +:+ String newline "b</reference>" ]}
     = inr [("reference", "a" +:+ String newline "b")].
Proof.
  intros H.
  assert (language_of (tostring stage) = "unknown") as Hlang.
  { apply language_of_no_match.
    intros a g rest [Heq Hg]%is_match_language.
    rewrite (H _ _ _ Heq) in Hg. done. }
  split; [done|]. unfold stage_path. rewrite Hlang.
  split; [by vm_compute|]. split; [done|]. split; by vm_compute.
Qed.

Lemma language_not_matched_across_lines_witness :
  (forall a g rest,
     tostring multiline_stage
     = a +:+ "<ns0:language>" +:+ g +:+ "</ns0:language>" +:+ rest ->
     contains_char newline g = true)
  /\ language_of (tostring multiline_stage) = "unknown"
  /\ stage_path "out" multiline_stage 1 = "out/Main_1.txt".
Proof.
  assert (forall a g rest,
            tostring multiline_stage
            = a +:+ "<ns0:language>" +:+ g +:+ "</ns0:language>" +:+ rest ->
            contains_char newline g = true) as H.
  { apply search_language_None. reflexivity. }
  split; [exact H|].
  destruct (language_not_matched_across_lines multiline_stage H)
    as (Hlang & _ & Hpath & _).
  split; [exact Hlang|]. rewrite Hpath. reflexivity.
Defined.

(** C10.  The dependency collector looks at the text and not at the
    structure of the document: there is a file with a reference element
    inside an XML comment and an import element inside the text of a code
    element, and both are in the result. *)
Theorem dependency_collection_is_textual :
  exists content,
    (exists pre post,
       content
       = pre +:+ "<!--" +:+ " <reference>Old.Lib</reference> " +:+ "-->"
         +:+ post)
    /\ (exists pre post,
          content
          = pre +:+ "<code><![CDATA[" +:+ " s = '<import>Fake</import>' "
            +:+ "]]></code>" +:+ post)
    /\ extract_text_between_tags "release.xml" {[ "release.xml" := content ]}
       = inr [("reference", "Old.Lib"); ("import", "Fake")].
Proof.
  exists commented_xml. split; [|split].
  - by exists "<a>",
      "<code><![CDATA[ s = '<import>Fake</import>' ]]></code></a>".
  - by exists "<a><!-- <reference>Old.Lib</reference> -->", "</a>".
  - by vm_compute.
Qed.

(** * Further properties of the program *)

(** ** The extractor writes code files only *)

Lemma file_extension_cases language :
  file_extension language ∈ ["cs"; "ps1"; "vb"; "txt"].
Proof.
  unfold file_extension. rewrite extension_map_lookup.
  repeat case_decide; simpl; set_solver.
Qed.

Lemma os_path_join_suffix a b s :
  exists base, os_path_join a (b +:+ s) = base +:+ s.
Proof.
  unfold os_path_join. destruct (startswith (b +:+ s) "/").
  - by exists b.
  - destruct (bool_decide (a = "") || endswith a "/").
    + exists (a +:+ b). by rewrite str_app_assoc.
    + exists (a +:+ "/" +:+ b). by rewrite !str_app_assoc.
Qed.

(** Every path the extractor derives ends in a dot and one of the four
    extensions. *)
Lemma stage_path_extension output_dir stage idx :
  exists base ext,
    ext ∈ ["cs"; "ps1"; "vb"; "txt"]
    /\ stage_path output_dir stage idx = base +:+ "." +:+ ext.
Proof.
  unfold stage_path, file_name.
  set (ext := file_extension (language_of (tostring stage))).
  destruct (os_path_join_suffix output_dir
              (stage_name stage +:+ "_" +:+ pretty idx) ("." +:+ ext))
    as [base Hbase].
  exists base, ext. split; [apply file_extension_cases|].
  rewrite <- Hbase. by rewrite !str_app_assoc.
Qed.

Lemma root_writes_code_files output_dir root p :
  p ∈ (root_writes output_dir root).*1 ->
  exists base ext,
    ext ∈ ["cs"; "ps1"; "vb"; "txt"] /\ p = base +:+ "." +:+ ext.
Proof.
  intros (stage & i & _ & _ & ->)%root_writes_path.
  apply stage_path_extension.
Qed.

Lemma root_writes_other_paths output_dir root ws fs p :
  (forall base ext,
     ext ∈ ["cs"; "ps1"; "vb"; "txt"] -> p <> base +:+ "." +:+ ext) ->
  ws `prefix_of` root_writes output_dir root ->
  apply_writes ws fs !! p = fs !! p.
Proof.
  intros Hp [ws' Hws]. rewrite lookup_apply_writes.
  rewrite last_write_None; [done|]. intros Hin.
  destruct (root_writes_code_files output_dir root p)
    as (base & ext & Hext & Heq); [|by eapply Hp].
  rewrite Hws, fmap_app. apply elem_of_app. by left.
Qed.

Lemma apply_writes_keeps_files ws fs p :
  is_Some (fs !! p) -> is_Some (apply_writes ws fs !! p).
Proof.
  intros Hp. rewrite lookup_apply_writes. by destruct (last_write p ws).
Qed.

(** X1.  A run of the extractor changes only files whose path ends in .cs,
    .ps1, .vb or .txt: every other path holds after the run what it held
    before.  It removes no file. *)
Theorem extract_code_touches_code_files_only (os : os_model)
  (ET_parse : string -> option element) (file_path output_dir : string)
  (fs fs' : gmap string string) :
  extract_code_from_robot_release os ET_parse file_path output_dir fs
  = inr fs' ->
  (forall p,
     (forall base ext,
        ext ∈ ["cs"; "ps1"; "vb"; "txt"] -> p <> base +:+ "." +:+ ext) ->
     fs' !! p = fs !! p)
  /\ (forall p, is_Some (fs !! p) -> is_Some (fs' !! p)).
Proof.
  intros (content & root & _ & _ & _ & _ & ->)%extract_code_returns. split.
  - intros p Hp. by eapply root_writes_other_paths.
  - intros p Hp. by apply apply_writes_keeps_files.
Qed.

Lemma extract_code_touches_code_files_only_witness :
  let fs : gmap string string := {[ "release.xml" := main_xml ]} in
  let fs1 := <["out/Main_2.cs" := "B"]> (<["out/Main_1.cs" := "A"]> fs) in
  extract_code_from_robot_release example_os example_parse "release.xml"
    "out" fs = inr fs1
  /\ is_Some (fs1 !! "release.xml").
Proof.
  intros fs fs1.
  assert (extract_code_from_robot_release example_os example_parse
            "release.xml" "out" fs = inr fs1) as Hrun by reflexivity.
  split; [exact Hrun|].
  apply (proj2 (extract_code_touches_code_files_only example_os example_parse
                  "release.xml" "out" fs fs1 Hrun)).
  by exists main_xml.
Defined.

(** ** The SBOM assembler and longer inputs *)

Lemma distinct_names_app l1 l2 :
  distinct_names (l1 ++ l2) = foldl seen_step (distinct_names l1) l2.
Proof. unfold distinct_names. by rewrite foldl_app. Qed.

Lemma foldl_seen_step_prefix ns l : ns `prefix_of` foldl seen_step ns l.
Proof.
  revert ns. induction l as [|x l IH]; intros ns; [done|].
  simpl. etrans; [|apply IH]. unfold seen_step.
  destruct (decide (x ∈ ns)); [done|]. by apply prefix_app_r.
Qed.

Lemma foldl_seen_step_known ns l :
  (forall x, x ∈ l -> x ∈ ns) -> foldl seen_step ns l = ns.
Proof.
  induction l as [|x l IH]; intros H; [done|].
  simpl. unfold seen_step at 2.
  destruct (decide (x ∈ ns)) as [|Hx].
  - apply IH. intros y Hy. apply H. by right.
  - destruct Hx. apply H. by left.
Qed.

Lemma components_of_app urandom ns ms :
  components_of urandom ns `prefix_of` components_of urandom (ns ++ ms).
Proof. unfold components_of. rewrite imap_app. by apply prefix_app_r. Qed.

(** X2.  With the same random bytes, a longer input keeps the components
    of the shorter one: the components for [l1] are the first components
    for [l1 ++ l2], identifiers included. *)
Theorem generate_sbom_append_keeps_components (urandom : nat -> N)
  (l1 l2 : list (string * string)) :
  sbom_components (generate_sbom urandom l1)
  `prefix_of` sbom_components (generate_sbom urandom (l1 ++ l2)).
Proof.
  rewrite !sbom_components_eq, fmap_app, distinct_names_app.
  destruct (foldl_seen_step_prefix (distinct_names l1.*2) l2.*2) as [ms ->].
  apply components_of_app.
Qed.

(** X3.  Pairs whose names have all occurred before add nothing: the
    document for [l1 ++ l2] is the document for [l1]. *)
Theorem generate_sbom_ignores_known_names (urandom : nat -> N)
  (l1 l2 : list (string * string)) :
  (forall x, x ∈ l2.*2 -> x ∈ l1.*2) ->
  generate_sbom urandom (l1 ++ l2) = generate_sbom urandom l1.
Proof.
  intros H. rewrite !generate_sbom_eq, fmap_app, distinct_names_app.
  rewrite foldl_seen_step_known; [done|].
  intros x Hx. apply (distinct_names_first_seen l1.*2). by apply H.
Qed.

Lemma generate_sbom_ignores_known_names_witness :
  (forall x, x ∈ [("import", "System.IO")].*2 ->
             x ∈ [("reference", "System.IO")].*2)
  /\ generate_sbom (fun k => N.of_nat k)
       ([("reference", "System.IO")] ++ [("import", "System.IO")])
     = generate_sbom (fun k => N.of_nat k) [("reference", "System.IO")].
Proof.
  assert (forall x, x ∈ [("import", "System.IO")].*2 ->
                    x ∈ [("reference", "System.IO")].*2) as H
    by (intros x Hx; exact Hx).
  split; [exact H|].
  exact (generate_sbom_ignores_known_names (fun k => N.of_nat k)
           [("reference", "System.IO")] [("import", "System.IO")] H).
Defined.

(** ** The dependency collector: empty results and closing tags *)

Lemma findall_nil_iff p s :
  p_open p <> "" ->
  findall p s = [] <-> forall a g rest, ~ is_match p s a g rest.
Proof.
  intros Ho. rewrite findall_unfold by done. split.
  - intros H. destruct (search p s) as [[g rest]|] eqn:E; [done|].
    by apply search_None.
  - intros H. destruct (search p s) as [[g rest]|] eqn:E; [|done].
    destruct (search_Some _ _ _ _ E) as (a & Hm & _). by destruct (H a g rest).
Qed.

(** X4.  The result is empty exactly when the text has no opening
    reference tag followed later by a closing one, and no such pair of
    import tags either; an opening tag that is never closed gives nothing. *)
Theorem extract_text_between_tags_empty (fs : gmap string string)
  (file_path content : string) :
  fs !! file_path = Some content ->
  extract_text_between_tags file_path fs = inr [] <->
  (forall a g rest,
     content <> a +:+ "<reference>" +:+ g +:+ "</reference>" +:+ rest)
  /\ (forall a g rest,
        content <> a +:+ "<import>" +:+ g +:+ "</import>" +:+ rest).
Proof.
  intros Hfile. unfold extract_text_between_tags. rewrite Hfile.
  assert (forall l1 l2 : list (string * string),
            inr l1 = (inr l2 : py_error + _) <-> l1 = l2) as Hinr
    by (intros; split; congruence).
  assert (forall (f : string -> string * string) l, f <$> l = [] <-> l = [])
    as Hfmap by (intros f [|x l]; split; done).
  rewrite Hinr, app_nil, !Hfmap.
  rewrite !findall_nil_iff by done.
  split; intros [Hr Hi]; (split; intros a g rest H; [eapply Hr|eapply Hi]);
    try (apply is_match_dotall; exact H);
    try (apply is_match_dotall in H; exact H).
Qed.

Lemma extract_text_between_tags_empty_witness :
  ({[ "f" := "<reference>never closed" ]} : gmap string string) !! "f"
  = Some "<reference>never closed"
  /\ (extract_text_between_tags "f" {[ "f" := "<reference>never closed" ]}
      = inr [] <->
      (forall a g rest,
         "<reference>never closed"
         <> a +:+ "<reference>" +:+ g +:+ "</reference>" +:+ rest)
      /\ (forall a g rest,
            "<reference>never closed"
            <> a +:+ "<import>" +:+ g +:+ "</import>" +:+ rest)).
Proof.
  assert (({[ "f" := "<reference>never closed" ]} : gmap string string) !! "f"
          = Some "<reference>never closed") as Hfile by reflexivity.
  split; [exact Hfile|].
  exact (extract_text_between_tags_empty _ "f" _ Hfile).
Defined.

Lemma all_matches_no_close o c s gs :
  c <> "" ->
  all_matches (Pattern o false c true) s gs ->
  Forall (fun g => forall x y, g <> x +:+ c +:+ y) gs.
Proof.
  intros Hc. induction 1 as [|s a g rest gs [Hm Hmin] _ IH]; [done|].
  constructor; [|done]. intros x y ->.
  apply is_match_dotall in Hm. simpl in Hm.
  destruct (Hmin a x (y +:+ c +:+ rest)) as [Hlt|[_ Hle]].
  - apply is_match_dotall. rewrite Hm. by rewrite !str_app_assoc.
  - lia.
  - rewrite !str_length_app in Hle. destruct c; [done|]. simpl in Hle. lia.
Qed.

Lemma strip_no_substring g c :
  (forall x y, g <> x +:+ c +:+ y) -> forall x y, strip g <> x +:+ c +:+ y.
Proof.
  intros H x y Heq.
  destruct (strip_trimmed g) as [(l & r & Hg & _) _].
  apply (H (l +:+ x) (y +:+ r)). rewrite Hg at 1. rewrite Heq.
  by rewrite !str_app_assoc.
Qed.

(** X5.  Every pair of the result has the kind "reference" or "import",
    and its name never holds the closing tag of its kind: a match ends at
    the first closing tag after its opening tag. *)
Theorem extract_text_between_tags_names (fs : gmap string string)
  (file_path content : string) (libraries : list (string * string)) :
  fs !! file_path = Some content ->
  extract_text_between_tags file_path fs = inr libraries ->
  forall kind name,
    (kind, name) ∈ libraries ->
    (kind = "reference" /\ forall x y, name <> x +:+ "</reference>" +:+ y)
    \/ (kind = "import" /\ forall x y, name <> x +:+ "</import>" +:+ y).
Proof.
  intros Hfile. unfold extract_text_between_tags. rewrite Hfile.
  intros [= <-] kind name Hin.
  assert (forall o c g,
            o <> "" -> c <> "" -> g ∈ findall (Pattern o false c true) content ->
            forall x y, strip g <> x +:+ c +:+ y) as Hgroup.
  { intros o c g Ho Hc Hg. apply strip_no_substring.
    pose proof (all_matches_no_close o c content _ Hc
                  (findall_all_matches (Pattern o false c true) content Ho))
      as Hall.
    rewrite Forall_forall in Hall. by apply Hall. }
  apply elem_of_app in Hin as [Hin|Hin];
    apply list_elem_of_fmap in Hin as (g & [= -> ->] & Hg); [left|right];
    (split; [done|]).
  - by apply (Hgroup "<reference>" "</reference>" g).
  - by apply (Hgroup "<import>" "</import>" g).
Qed.

Lemma extract_text_between_tags_names_witness :
  let content := "<reference>A</reference></reference>" in
  ({[ "f" := content ]} : gmap string string) !! "f" = Some content
  /\ extract_text_between_tags "f" {[ "f" := content ]}
     = inr [("reference", "A")]
  /\ forall x y, "A" <> x +:+ "</reference>" +:+ y.
Proof.
  intros content.
  assert (({[ "f" := content ]} : gmap string string) !! "f" = Some content)
    as Hfile by reflexivity.
  assert (extract_text_between_tags "f" {[ "f" := content ]}
          = inr [("reference", "A")]) as Hrun by reflexivity.
  split; [exact Hfile|]. split; [exact Hrun|].
  destruct (extract_text_between_tags_names _ "f" content _ Hfile Hrun
              "reference" "A") as [[_ H]|[H _]].
  - apply elem_of_cons. by left.
  - exact H.
  - discriminate H.
Defined.

(** ** The whole run *)

Lemma last_char_app s t : t <> "" -> last_char (s +:+ t) = last_char t.
Proof.
  intros Ht. induction s as [|c s IH]; [done|].
  rewrite str_app_cons. simpl. rewrite IH.
  destruct (s +:+ t) eqn:E; [|done].
  apply str_app_eq_nil in E as [_ ->]. done.
Qed.

(** A path whose last character is none of s, 1, b and t is not the path
    of a code file. *)
Lemma not_code_file p c :
  last_char p = Some c ->
  c ∉ ["s"; "1"; "b"; "t"]%char ->
  forall base ext,
    ext ∈ ["cs"; "ps1"; "vb"; "txt"] -> p <> base +:+ "." +:+ ext.
Proof.
  intros Hlast Hc base ext Hext ->. apply Hc.
  rewrite <- str_app_assoc, last_char_app in Hlast.
  - rewrite !elem_of_cons in Hext. rewrite !elem_of_cons.
    destruct Hext as [->|[->|[->|[->|Hext]]]];
      [..|by apply elem_of_nil in Hext];
      injection Hlast as <-; auto.
  - intros ->. rewrite !elem_of_cons, elem_of_nil in Hext.
    destruct Hext as [?|[?|[?|[?|[]]]]]; discriminate.
Qed.

Lemma last_char_sbom_path output_dir :
  last_char (os_path_join output_dir "sbom.json") = Some "n"%char.
Proof.
  unfold os_path_join.
  change (startswith "sbom.json" "/") with false. cbv iota.
  destruct (bool_decide (output_dir = "") || endswith output_dir "/");
    rewrite ?(last_char_app _ ("/" +:+ "sbom.json")), ?last_char_app; done.
Qed.

Lemma sbom_path_not_code_file output_dir base ext :
  ext ∈ ["cs"; "ps1"; "vb"; "txt"] ->
  os_path_join output_dir "sbom.json" <> base +:+ "." +:+ ext.
Proof.
  apply (not_code_file _ "n"); [apply last_char_sbom_path|].
  rewrite !elem_of_cons, elem_of_nil. intros [?|[?|[?|[?|[]]]]]; discriminate.
Qed.


Lemma extract_text_between_tags_text file_path content_text
  (fs : gmap string string) :
  extract_text_between_tags file_path (<[file_path := content_text]> fs)
  = extract_text_between_tags file_path {[ file_path := content_text ]}.
Proof.
  unfold extract_text_between_tags.
  by rewrite lookup_insert_eq, lookup_singleton_eq.
Qed.


(** The result of a run that the operating system does not stop, on a
    file that parses, is UTF-8 text and is not a code file *)
Lemma run_pipeline_result (os : os_model)
  (ET_parse : string -> option element)
  (utf8_decode : string -> option string) (urandom : nat -> N)
  (file_path output_dir content content_text : string)
  (fs : gmap string string) (root : element) :
  makedirs_error os output_dir = None ->
  fs !! file_path = Some content ->
  ET_parse content = Some root ->
  (forall base ext,
     ext ∈ ["cs"; "ps1"; "vb"; "txt"] -> file_path <> base +:+ "." +:+ ext) ->
  (forall p, p ∈ (root_writes output_dir root).*1 -> open_w_error os p = None) ->
  utf8_decode content = Some content_text ->
  open_w_error os (os_path_join output_dir "sbom.json") = None ->
  exists libraries,
    extract_text_between_tags file_path {[ file_path := content_text ]}
    = inr libraries
    /\ run_pipeline os ET_parse utf8_decode urandom file_path output_dir fs
       = (save_sbom_to_file (generate_sbom urandom libraries) output_dir
            (apply_writes (root_writes output_dir root) fs), None).
Proof.
  intros Hdir Hfile Hparse Hpath Hopen Hdecode Hsbom.
  assert (apply_writes (root_writes output_dir root) fs !! file_path
          = Some content) as Hfile'.
  { rewrite <- Hfile. eapply root_writes_other_paths; done. }
  eexists. split.
  { unfold extract_text_between_tags. by rewrite lookup_singleton_eq. }
  unfold run_pipeline.
  rewrite (extract_code_run _ _ _ _ content _ root) by done.
  assert (try_writes os (root_writes output_dir root) fs
          = inr (apply_writes (root_writes output_dir root) fs)) as ->.
  { apply try_writes_inr. split; [|done]. apply Forall_forall.
    intros w Hw. apply Hopen. apply list_elem_of_fmap. by exists w. }
  rewrite Hfile', Hdecode, extract_text_between_tags_text.
  unfold extract_text_between_tags. rewrite lookup_singleton_eq.
  by rewrite Hdir, Hsbom.
Qed.

(** X7.  When the operating system does not stop the run (the output
    directory can be made, and the code files and sbom.json can be opened
    for writing), and the input file is there, parses, is UTF-8 text, and
    its path is not the path of a code file, the run ends without
    exception; the SBOM is built from the text the file held before the
    run; sbom.json of the output directory holds its JSON text; and every
    other path holds what the extractor left there, so the SBOM replaces
    no extracted code. *)
Theorem run_pipeline_success (os : os_model)
  (ET_parse : string -> option element)
  (utf8_decode : string -> option string) (urandom : nat -> N)
  (file_path output_dir content content_text : string)
  (fs : gmap string string) (root : element) :
  makedirs_error os output_dir = None ->
  fs !! file_path = Some content ->
  ET_parse content = Some root ->
  (forall base ext,
     ext ∈ ["cs"; "ps1"; "vb"; "txt"] -> file_path <> base +:+ "." +:+ ext) ->
  (forall p, p ∈ (root_writes output_dir root).*1 -> open_w_error os p = None) ->
  utf8_decode content = Some content_text ->
  open_w_error os (os_path_join output_dir "sbom.json") = None ->
  exists libraries fs',
    extract_text_between_tags file_path {[ file_path := content_text ]}
    = inr libraries
    /\ run_pipeline os ET_parse utf8_decode urandom file_path output_dir fs
       = (fs', None)
    /\ fs' !! os_path_join output_dir "sbom.json"
       = Some (Json.dump (generate_sbom urandom libraries))
    /\ (forall p,
          p <> os_path_join output_dir "sbom.json" ->
          fs' !! p = apply_writes (root_writes output_dir root) fs !! p)
    /\ apply_writes (root_writes output_dir root) fs
         !! os_path_join output_dir "sbom.json"
       = fs !! os_path_join output_dir "sbom.json"
    /\ apply_writes (root_writes output_dir root) fs !! file_path
       = Some content.
Proof.
  intros Hdir Hfile Hparse Hpath Hopen Hdecode Hsbom.
  destruct (run_pipeline_result os ET_parse utf8_decode urandom file_path
              output_dir content content_text fs root
              Hdir Hfile Hparse Hpath Hopen Hdecode Hsbom)
    as (libraries & Hlibs & Hrun).
  exists libraries. eexists. split; [exact Hlibs|]. split; [exact Hrun|].
  unfold save_sbom_to_file, write_file.
  split; [by rewrite lookup_insert_eq|].
  split; [intros p Hp; by rewrite lookup_insert_ne|].
  split.
  - eapply root_writes_other_paths; [|done].
    intros. by apply sbom_path_not_code_file.
  - rewrite <- Hfile. eapply root_writes_other_paths; done.
Qed.

Lemma run_pipeline_success_witness :
  let fs : gmap string string := {[ "release.xml" := main_xml ]} in
  makedirs_error example_os "out" = None
  /\ fs !! "release.xml" = Some main_xml
  /\ example_parse main_xml = Some main_document
  /\ (forall base ext,
        ext ∈ ["cs"; "ps1"; "vb"; "txt"] ->
        "release.xml" <> base +:+ "." +:+ ext)
  /\ (forall p, p ∈ (root_writes "out" main_document).*1 ->
        open_w_error example_os p = None)
  /\ open_w_error example_os (os_path_join "out" "sbom.json") = None
  /\ exists libraries fs',
       extract_text_between_tags "release.xml" {[ "release.xml" := main_xml ]}
       = inr libraries
       /\ run_pipeline example_os example_parse (fun s => Some s)
            (fun k => N.of_nat k) "release.xml" "out" fs
          = (fs', None)
       /\ fs' !! os_path_join "out" "sbom.json"
          = Some (Json.dump (generate_sbom (fun k => N.of_nat k) libraries)).
Proof.
  intros fs.
  assert (makedirs_error example_os "out" = None) as Hdir by reflexivity.
  assert (fs !! "release.xml" = Some main_xml) as Hfile by reflexivity.
  assert (example_parse main_xml = Some main_document) as Hparse
    by reflexivity.
  assert (forall base ext,
            ext ∈ ["cs"; "ps1"; "vb"; "txt"] ->
            "release.xml" <> base +:+ "." +:+ ext) as Hpath.
  { apply (not_code_file _ "l"); [reflexivity|].
    rewrite !elem_of_cons, elem_of_nil.
    intros [?|[?|[?|[?|[]]]]]; discriminate. }
  assert (forall p, p ∈ (root_writes "out" main_document).*1 ->
            open_w_error example_os p = None) as Hopen.
  { intros p Hp. rewrite main_document_writes in Hp. simpl in Hp.
    apply elem_of_cons in Hp as [->|Hp]; [reflexivity|].
    apply elem_of_cons in Hp as [->|Hp]; [reflexivity|].
    by apply elem_of_nil in Hp. }
  assert (open_w_error example_os (os_path_join "out" "sbom.json") = None)
    as Hsbom by reflexivity.
  split; [exact Hdir|]. split; [exact Hfile|]. split; [exact Hparse|].
  split; [exact Hpath|]. split; [exact Hopen|]. split; [exact Hsbom|].
  destruct (run_pipeline_success example_os example_parse (fun s => Some s)
              (fun k => N.of_nat k) "release.xml" "out" main_xml main_xml fs
              main_document Hdir Hfile Hparse Hpath Hopen eq_refl Hsbom)
    as (libraries & fs' & Hlibs & Hrun & Hjson & _).
  exists libraries, fs'. split; [exact Hlibs|]. split; [exact Hrun|].
  exact Hjson.
Defined.

(** An input file that is not UTF-8 text: [ET.parse] reads it, the code
    files are written, and the text reader of the dependency collector
    raises. *)
Example run_pipeline_not_utf8 :
  let fs : gmap string string := {[ "release.xml" := main_xml ]} in
  run_pipeline example_os example_parse (fun _ => None) (fun k => N.of_nat k)
    "release.xml" "out" fs
  = (<["out/Main_2.cs" := "B"]> (<["out/Main_1.cs" := "A"]> fs),
     Some UnicodeDecodeError).
Proof. reflexivity. Qed.

(** [main] with its paths: the input path of [main] is not the path of a
    code file. *)
Lemma main_success (os : os_model) (ET_parse : string -> option element)
  (utf8_decode : string -> option string) (urandom : nat -> N)
  (content content_text : string) (fs : gmap string string) (root : element) :
  makedirs_error os "path/to/output/directory" = None ->
  fs !! "path/to/your/robotrelease.xml" = Some content ->
  ET_parse content = Some root ->
  (forall p, p ∈ (root_writes "path/to/output/directory" root).*1 ->
     open_w_error os p = None) ->
  utf8_decode content = Some content_text ->
  open_w_error os "path/to/output/directory/sbom.json" = None ->
  exists libraries fs',
    extract_text_between_tags "path/to/your/robotrelease.xml"
      {[ "path/to/your/robotrelease.xml" := content_text ]}
    = inr libraries
    /\ main os ET_parse utf8_decode urandom fs = (fs', None)
    /\ fs' !! "path/to/output/directory/sbom.json"
       = Some (Json.dump (generate_sbom urandom libraries))
    /\ (forall p,
          p <> "path/to/output/directory/sbom.json" ->
          fs' !! p
          = apply_writes (root_writes "path/to/output/directory" root) fs
              !! p).
Proof.
  intros Hdir Hfile Hparse Hopen Hdecode Hsbom.
  destruct (run_pipeline_result os ET_parse utf8_decode urandom
              "path/to/your/robotrelease.xml" "path/to/output/directory"
              content content_text fs root Hdir Hfile Hparse)
    as (libraries & Hlibs & Hrun); [|done..|].
  { apply (not_code_file _ "l"); [reflexivity|].
    rewrite !elem_of_cons, elem_of_nil.
    intros [?|[?|[?|[?|[]]]]]; discriminate. }
  exists libraries. eexists. split; [exact Hlibs|]. split; [exact Hrun|].
  unfold save_sbom_to_file, write_file.
  split; [apply lookup_insert_eq|].
  intros p Hp. by apply lookup_insert_ne.
Qed.

(** ** The text of sbom.json *)

Lemma pyval_nested_ind (P : pyval -> Prop) :
  (forall s, P (PStr s)) ->
  (forall z, P (PInt z)) ->
  (forall l, Forall P l -> P (PList l)) ->
  (forall items, Forall (fun kv => P kv.2) items -> P (PDict items)) ->
  forall o, P o.
Proof.
  intros HStr HInt HList HDict. fix IH 1. intros [s|z|l|items].
  - apply HStr.
  - apply HInt.
  - apply HList. induction l as [|x l IHl]; constructor; [apply IH|apply IHl].
  - apply HDict.
    induction items as [|[k v] items IHitems]; constructor;
      [apply IH|apply IHitems].
Qed.

Lemma plain_text_app s t : plain_text (s +:+ t) = plain_text s && plain_text t.
Proof.
  induction s as [|c s IH]; [done|].
  rewrite str_app_cons. simpl. by rewrite IH, andb_assoc.
Qed.

Lemma plain_text_escape_char c : plain_text (Json.escape_char c) = true.
Proof.
  assert (forallb (fun c => plain_text (Json.escape_char c)) all_ascii = true)
    as H by (vm_compute; reflexivity).
  rewrite forallb_forall in H. apply H, list_elem_of_In, all_ascii_complete.
Qed.

Lemma plain_text_encode_basestring_ascii s :
  plain_text (Json.encode_basestring_ascii s) = true.
Proof.
  unfold Json.encode_basestring_ascii. rewrite !plain_text_app.
  assert (plain_text (Json.escape_string s) = true) as ->; [|done].
  induction s as [|c s IH]; [done|].
  simpl. by rewrite plain_text_app, plain_text_escape_char, IH.
Qed.

Lemma plain_text_newline_indent level :
  plain_text (Json.newline_indent level) = true.
Proof.
  unfold Json.newline_indent. generalize (4 * level). intros n.
  simpl. induction n as [|n IH]; [done|]. exact IH.
Qed.

Lemma plain_text_join sep l :
  plain_text sep = true -> Forall (fun s => plain_text s = true) l ->
  plain_text (Json.join sep l) = true.
Proof.
  intros Hsep. induction 1 as [|x l Hx Hl IH]; [done|].
  destruct l as [|y l]; [done|].
  change (Json.join sep (x :: y :: l))
    with (x +:+ sep +:+ Json.join sep (y :: l)).
  by rewrite !plain_text_app, Hx, Hsep, IH.
Qed.

Lemma plain_text_pretty_N_go x s :
  plain_text s = true -> plain_text (pretty_N_go x s) = true.
Proof.
  revert s. induction (N.lt_wf_0 x) as [x _ IH]; intros s Hs.
  assert (x = 0 \/ 0 < x)%N as [->|Hx] by lia.
  - by rewrite pretty_N_go_0.
  - rewrite pretty_N_go_step by done. apply IH; [by apply N.div_lt|].
    simpl. rewrite Hs. unfold pretty_N_char. by repeat case_match.
Qed.

Lemma plain_text_pretty_N (x : N) : plain_text (pretty x) = true.
Proof.
  unfold pretty, pretty_N. case_decide; [done|].
  by apply plain_text_pretty_N_go.
Qed.

Lemma plain_text_pretty_Z (z : Z) : plain_text (pretty z) = true.
Proof.
  unfold pretty, pretty_Z. destruct z as [|p|p]; [done|..].
  - apply (plain_text_pretty_N (Npos p)).
  - rewrite plain_text_app. apply (plain_text_pretty_N (Npos p)).
Qed.

Lemma iterencode_list level x l :
  Json._iterencode level (PList (x :: l))
  = "[" +:+ Json.newline_indent (S level)
    +:+ Json.join ("," +:+ Json.newline_indent (S level))
          (map (Json._iterencode (S level)) (x :: l))
    +:+ Json.newline_indent level +:+ "]".
Proof. reflexivity. Qed.

Lemma iterencode_dict level kv items :
  Json._iterencode level (PDict (kv :: items))
  = "{" +:+ Json.newline_indent (S level)
    +:+ Json.join ("," +:+ Json.newline_indent (S level))
          (map (fun kv =>
                  Json.encode_basestring_ascii kv.1 +:+ ": "
                  +:+ Json._iterencode (S level) kv.2) (kv :: items))
    +:+ Json.newline_indent level +:+ "}".
Proof.
  change (Json._iterencode level (PDict (kv :: items)))
    with ("{" +:+ Json.newline_indent (S level)
          +:+ Json.join ("," +:+ Json.newline_indent (S level))
                (map (fun kv =>
                        match kv with
                        | (key, value) =>
                            Json.encode_basestring_ascii key +:+ ": "
                            +:+ Json._iterencode (S level) value
                        end) (kv :: items))
          +:+ Json.newline_indent level +:+ "}").
  do 4 f_equal. apply map_ext. by intros [k v].
Qed.

(** The encoder writes line feeds and printable ASCII characters only. *)
Lemma plain_text_iterencode o level :
  plain_text (Json._iterencode level o) = true.
Proof.
  revert level. induction o as [s|z|l IH|items IH] using pyval_nested_ind;
    intros level.
  - apply plain_text_encode_basestring_ascii.
  - apply plain_text_pretty_Z.
  - destruct l as [|x l]; [done|].
    rewrite iterencode_list, !plain_text_app, !plain_text_newline_indent.
    rewrite plain_text_join; [done|by rewrite plain_text_app,
                                     plain_text_newline_indent|].
    apply Forall_map. eapply Forall_impl; [exact IH|]. simpl. auto.
  - destruct items as [|kv items]; [done|].
    rewrite iterencode_dict, !plain_text_app, !plain_text_newline_indent.
    rewrite plain_text_join; [done|by rewrite plain_text_app,
                                     plain_text_newline_indent|].
    apply Forall_map. eapply Forall_impl; [exact IH|].
    intros [k v] Hv. cbn [fst snd] in *.
    by rewrite !plain_text_app, plain_text_encode_basestring_ascii, Hv.
Qed.

(** X8.  [save_sbom_to_file] writes one file, sbom.json of the output
    directory, and leaves every other path as it was.  The text it writes
    holds line feeds and printable ASCII characters only, whatever
    characters the values of the document hold. *)
Theorem save_sbom_to_file_plain_text (sbom : pyval) (output_dir : string)
  (fs : gmap string string) :
  exists text,
    save_sbom_to_file sbom output_dir fs !! os_path_join output_dir "sbom.json"
    = Some text
    /\ text = Json.dump sbom
    /\ plain_text text = true
    /\ forall p,
         p <> os_path_join output_dir "sbom.json" ->
         save_sbom_to_file sbom output_dir fs !! p = fs !! p.
Proof.
  exists (Json.dump sbom). unfold save_sbom_to_file, write_file.
  split; [by rewrite lookup_insert_eq|]. split; [done|].
  split; [apply plain_text_iterencode|].
  intros p Hp. by rewrite lookup_insert_ne.
Qed.

(** ** The prefix ns0 *)

(** X9.  For every stage that a run visits, the prefix ns0 of the two
    patterns stands for the namespace of the stage itself: the serialized
    stage starts with <ns0:stage, and an element of the process namespace
    with the local name [local] is written with the name ns0:local. *)
Theorem ns0_is_the_process_namespace (root stage : element) :
  stage ∈ all_stages root ->
  (forall local,
     encode_qname (_namespaces stage) (QName process_ns local)
     = "ns0:" +:+ local)
  /\ exists rest, tostring stage = "<ns0:stage" +:+ rest.
Proof.
  intros Htag%all_stages_tag.
  assert (forall local,
            encode_qname (_namespaces stage) (QName process_ns local)
            = "ns0:" +:+ local) as Hname.
  { intros local. unfold encode_qname. simpl.
    rewrite namespaces_process by (by rewrite Htag). reflexivity. }
  split; [exact Hname|].
  unfold tostring. destruct stage as [t a tx ch tl]. simpl in Htag. subst t.
  unfold _serialize_xml; fold _serialize_xml.
  cbn [tag]. rewrite Hname. eexists. rewrite !str_app_assoc. reflexivity.
Qed.

Lemma ns0_is_the_process_namespace_witness :
  main_stage ∈ all_stages main_document
  /\ encode_qname (_namespaces main_stage) (QName process_ns "code")
     = "ns0:code".
Proof.
  assert (main_stage ∈ all_stages main_document) as H
    by (apply elem_of_cons; by left).
  split; [exact H|].
  exact (proj1 (ns0_is_the_process_namespace main_document main_stage H)
           "code").
Defined.

(** ** Code is written as the serializer escaped it *)

(** The serialized form of a stage with a name and one code element *)
Lemma tostring_code_stage name c text :
  tostring (Element (QName process_ns "stage") [(QName "" "name", name)] ""
              [leaf "code" (String c text)] "")
  = "<" +:+ ("ns0:stage xmlns:ns0=" +:+ quote +:+ process_ns +:+ quote
             +:+ " name=" +:+ quote)
    +:+ _escape_attrib name
    +:+ (quote +:+ ">")
    +:+ "<ns0:code" +:+ ">" +:+ _escape_cdata (String c text)
    +:+ "</ns0:code>" +:+ "</ns0:stage>".
Proof.
  unfold tostring.
  assert (_namespaces
            (Element (QName process_ns "stage") [(QName "" "name", name)] ""
               [leaf "code" (String c text)] "")
          = [(process_ns, "ns0")]) as -> by reflexivity.
  cbv -[String.append _escape_cdata _escape_attrib].
  rewrite ?str_app_assoc, ?str_app_nil_r, ?str_app_nil_l.
  reflexivity.
Qed.

Lemma findall_code_stage name c text :
  findall code_pattern
    (tostring (Element (QName process_ns "stage") [(QName "" "name", name)] ""
                 [leaf "code" (String c text)] ""))
  = [_escape_cdata (String c text)].
Proof.
  rewrite tostring_code_stage, findall_unfold by done.
  change ("<" +:+ ?x) with (String "<" x).
  rewrite search_skip_char by reflexivity.
  rewrite (search_skip_no_lt code_pattern "ns0:code"
             ("ns0:stage xmlns:ns0=" +:+ quote +:+ process_ns +:+ quote
              +:+ " name=" +:+ quote)); [|reflexivity..].
  rewrite (search_skip_no_lt code_pattern "ns0:code" (_escape_attrib name));
    [|reflexivity|apply escape_attrib_no_lt].
  rewrite (search_skip_no_lt code_pattern "ns0:code" (quote +:+ ">"));
    [|reflexivity..].
  assert (search code_pattern
            ("<ns0:code" +:+ ">" +:+ _escape_cdata (String c text)
             +:+ "</ns0:code>" +:+ "</ns0:stage>")
          = Some (_escape_cdata (String c text), "</ns0:stage>")) as ->.
  { apply search_match_at. unfold match_at. simpl p_open.
    rewrite strip_prefix_app. simpl p_attrs. cbv iota.
    change (">" +:+ ?x) with (String ">" x). cbn [skip_attrs].
    change (Ascii.eqb ">" ">") with true. cbv iota.
    apply (lazy_until_no_lt "/ns0:code>"), escape_cdata_no_lt. }
  reflexivity.
Qed.

Lemma language_of_code_stage name c text :
  language_of
    (tostring (Element (QName process_ns "stage") [(QName "" "name", name)] ""
                 [leaf "code" (String c text)] ""))
  = "unknown".
Proof.
  unfold language_of. rewrite tostring_code_stage.
  change ("<" +:+ ?x) with (String "<" x).
  rewrite search_skip_char by reflexivity.
  rewrite (search_skip_no_lt language_pattern "ns0:language>"
             ("ns0:stage xmlns:ns0=" +:+ quote +:+ process_ns +:+ quote
              +:+ " name=" +:+ quote)); [|reflexivity..].
  rewrite (search_skip_no_lt language_pattern "ns0:language>"
             (_escape_attrib name));
    [|reflexivity|apply escape_attrib_no_lt].
  rewrite (search_skip_no_lt language_pattern "ns0:language>" (quote +:+ ">"));
    [|reflexivity..].
  change ("<ns0:code" +:+ ?x) with (String "<" ("ns0:code" +:+ x)).
  rewrite search_skip_char by reflexivity.
  rewrite (search_skip_no_lt language_pattern "ns0:language>" "ns0:code");
    [|reflexivity..].
  rewrite (search_skip_no_lt language_pattern "ns0:language>" ">");
    [|reflexivity..].
  rewrite (search_skip_no_lt language_pattern "ns0:language>"
             (_escape_cdata (String c text)));
    [|reflexivity|apply escape_cdata_no_lt].
  reflexivity.
Qed.

Lemma findall_empty_code_stage name :
  findall code_pattern
    (tostring (Element (QName process_ns "stage") [(QName "" "name", name)] ""
                 [leaf "code" ""] ""))
  = [].
Proof.
  assert (tostring
            (Element (QName process_ns "stage") [(QName "" "name", name)] ""
               [leaf "code" ""] "")
          = "<" +:+ ("ns0:stage xmlns:ns0=" +:+ quote +:+ process_ns +:+ quote
                     +:+ " name=" +:+ quote)
            +:+ _escape_attrib name
            +:+ (quote +:+ ">")
            +:+ "<ns0:code />" +:+ "</ns0:stage>") as ->.
  { unfold tostring.
    assert (_namespaces
              (Element (QName process_ns "stage") [(QName "" "name", name)] ""
                 [leaf "code" ""] "")
            = [(process_ns, "ns0")]) as -> by reflexivity.
    cbv -[String.append _escape_cdata _escape_attrib].
    rewrite ?str_app_assoc, ?str_app_nil_r, ?str_app_nil_l.
    reflexivity. }
  rewrite findall_unfold by done.
  change ("<" +:+ ?x) with (String "<" x).
  rewrite search_skip_char by reflexivity.
  rewrite (search_skip_no_lt code_pattern "ns0:code"
             ("ns0:stage xmlns:ns0=" +:+ quote +:+ process_ns +:+ quote
              +:+ " name=" +:+ quote)); [|reflexivity..].
  rewrite (search_skip_no_lt code_pattern "ns0:code" (_escape_attrib name));
    [|reflexivity|apply escape_attrib_no_lt].
  rewrite (search_skip_no_lt code_pattern "ns0:code" (quote +:+ ">"));
    [|reflexivity..].
  reflexivity.
Qed.

(** X10.  The text of a code element reaches its file as the serializer
    escaped it: a stage with a name and one code element with the text
    [text] writes one file, <name>_1.txt, holding the trimmed text with
    every &, < and > replaced by &amp;, &lt; and &gt;, so the file holds no
    < at all.  A code element without text is written as an empty element
    and gives no file. *)
Theorem code_is_written_escaped (output_dir name text : string) :
  text <> "" ->
  stage_writes output_dir
    (Element (QName process_ns "stage") [(QName "" "name", name)] ""
       [leaf "code" text] "")
  = [ (os_path_join output_dir (name +:+ "_1.txt"),
       strip (replace_char ">" "&gt;"
                (replace_char "<" "&lt;" (replace_char "&" "&amp;" text)))) ]
  /\ contains_char "<"
       (replace_char ">" "&gt;"
          (replace_char "<" "&lt;" (replace_char "&" "&amp;" text))) = false
  /\ stage_writes output_dir
       (Element (QName process_ns "stage") [(QName "" "name", name)] ""
          [leaf "code" ""] "")
     = [].
Proof.
  intros Htext. destruct text as [|c text]; [done|]. split; [|split].
  - unfold stage_writes, stage_path.
    rewrite findall_code_stage, language_of_code_stage. reflexivity.
  - apply escape_cdata_no_lt.
  - unfold stage_writes. by rewrite findall_empty_code_stage.
Qed.

Lemma code_is_written_escaped_witness :
  "if (a < b) x();" <> ""
  /\ stage_writes "out"
       (Element (QName process_ns "stage") [(QName "" "name", "Main")] ""
          [leaf "code" "if (a < b) x();"] "")
     = [("out/Main_1.txt", "if (a &lt; b) x();")].
Proof.
  assert ("if (a < b) x();" <> "") as H by discriminate.
  split; [exact H|].
  exact (proj1 (code_is_written_escaped "out" "Main" "if (a < b) x();" H)).
Defined.

(** ** The identifiers of the components *)

Lemma all_hex_app s t : all_hex (s +:+ t) = all_hex s && all_hex t.
Proof.
  induction s as [|c s IH]; [done|].
  rewrite str_app_cons. simpl. by rewrite IH, andb_assoc.
Qed.

Lemma is_hex_hex_char d : is_hex (hex_char d) = true.
Proof. unfold hex_char. by repeat case_match. Qed.

Lemma all_hex_hex_digits n x : all_hex (hex_digits n x) = true.
Proof.
  revert x. induction n as [|n IH]; intros x; [done|].
  simpl. rewrite all_hex_app, IH. simpl. by rewrite is_hex_hex_char.
Qed.

Lemma all_hex_substring n m s :
  all_hex s = true -> all_hex (String.substring n m s) = true.
Proof.
  revert n m. induction s as [|c s IH]; intros [|n] [|m] H; simpl in *;
    try done; apply andb_true_iff in H as [Hc Hs]; auto.
  rewrite Hc. simpl. auto.
Qed.

Lemma get_app_l i s t :
  i < String.length s -> String.get i (s +:+ t) = String.get i s.
Proof.
  revert i. induction s as [|c s IH]; intros i Hi; simpl in Hi; [lia|].
  rewrite str_app_cons. destruct i as [|i]; [done|]. simpl. apply IH. lia.
Qed.

Lemma get_app_r s t : String.get (String.length s) (s +:+ t) = String.get 0 t.
Proof.
  induction s as [|c s IH]; [done|]. rewrite str_app_cons. simpl. exact IH.
Qed.

(** The [i]-th digit from the left among [n] is the digit of weight
    [n - 1 - i]. *)
Lemma hex_digits_get n x i :
  i < n ->
  String.get i (hex_digits n x)
  = Some (hex_char (N.land (N.shiftr x (4 * N.of_nat (n - 1 - i))) 15)).
Proof.
  revert x i. induction n as [|n IH]; intros x i Hi; [lia|].
  simpl hex_digits. destruct (decide (i = n)) as [->|Hne].
  - rewrite <- (hex_digits_length n (N.shiftr x 4)) at 1.
    rewrite get_app_r. simpl. replace (n - 0 - n) with 0 by lia.
    by rewrite N.shiftr_0_r.
  - rewrite get_app_l by (rewrite hex_digits_length; lia).
    rewrite IH by lia. rewrite N.shiftr_shiftr. do 4 f_equal. lia.
Qed.

Lemma substring_cons n m s c :
  String.get n s = Some c ->
  String.substring n (S m) s = String c (String.substring (S n) m s).
Proof.
  revert n. induction s as [|a s IH]; intros [|n] H; simpl in H; try done.
  - injection H as ->. simpl. by destruct m.
  - simpl. rewrite (IH n H). by destruct s.
Qed.

Lemma land_15_bits y b :
  (forall k, (k < 4)%N -> N.testbit y k = N.testbit b k) ->
  (b < 16)%N -> N.land y 15 = b.
Proof.
  intros H Hb. apply N.bits_inj. intros k. rewrite N.land_spec.
  destruct (N.lt_ge_cases k 4) as [Hk|Hk].
  - rewrite H by done.
    assert (k = 0 \/ k = 1 \/ k = 2 \/ k = 3)%N as [->|[->|[->| ->]]] by lia;
      simpl; by rewrite andb_true_r.
  - assert (N.testbit 15 k = false) as ->.
    { apply N.bits_above_log2. change (N.log2 15) with 3%N. lia. }
    rewrite andb_false_r. symmetry.
    destruct (decide (b = 0%N)) as [->|Hb0]; [apply N.bits_0|].
    apply N.bits_above_log2.
    assert (N.log2 b < 4)%N; [|lia]. apply N.log2_lt_pow2; lia.
Qed.

(** The digit of weight 19 of a UUID is the version, 4. *)
Lemma uuid4_version r : N.land (N.shiftr (uuid4_int r) 76) 15 = 4%N.
Proof.
  apply land_15_bits; [|lia]. intros k Hk. unfold uuid4_int. cbv zeta.
  rewrite N.shiftr_spec', N.lor_spec, N.ldiff_spec.
  assert (k = 0 \/ k = 1 \/ k = 2 \/ k = 3)%N as [->|[->|[->| ->]]] by lia;
    vm_compute (N.testbit (N.shiftl 4 76) _);
    vm_compute (N.testbit (N.shiftl 61440 64) _);
    vm_compute (N.testbit 4 _); simpl;
    by rewrite ?andb_false_r, ?orb_false_r, ?orb_true_r.
Qed.

(** The digit of weight 15 of a UUID is 8, 9, a or b: the variant. *)
Lemma uuid4_variant r :
  exists v, N.land (N.shiftr (uuid4_int r) 60) 15 = v
            /\ (v = 8 \/ v = 9 \/ v = 10 \/ v = 11)%N.
Proof.
  set (y := N.land (N.shiftr (uuid4_int r) 60) 15). exists y. split; [done|].
  assert (y < 16)%N as Hlt.
  { subst y. change 15%N with (N.ones 4). rewrite N.land_ones.
    apply N.mod_lt. done. }
  assert (forall j, (j < 4)%N ->
            N.testbit y j = N.testbit (uuid4_int r) (j + 60)) as Hbit.
  { intros j Hj. subst y. rewrite N.land_spec, N.shiftr_spec'.
    assert (j = 0 \/ j = 1 \/ j = 2 \/ j = 3)%N as [->|[->|[->| ->]]] by lia;
      simpl; by rewrite andb_true_r. }
  assert (N.testbit y 3 = true) as H3.
  { rewrite Hbit by lia. unfold uuid4_int. cbv zeta.
    rewrite N.lor_spec, N.ldiff_spec, N.lor_spec.
    vm_compute (N.testbit (N.shiftl 32768 48) _).
    vm_compute (N.testbit (N.shiftl 61440 64) _).
    by rewrite orb_true_r. }
  assert (N.testbit y 2 = false) as H2.
  { rewrite Hbit by lia. unfold uuid4_int. cbv zeta.
    rewrite N.lor_spec, N.ldiff_spec, N.lor_spec, N.ldiff_spec.
    vm_compute (N.testbit (N.shiftl 4 76) _).
    vm_compute (N.testbit (N.shiftl 32768 48) _).
    vm_compute (N.testbit (N.shiftl 49152 48) _).
    vm_compute (N.testbit (N.shiftl 61440 64) _).
    simpl. by rewrite andb_false_r. }
  assert (y = 0 \/ y = 1 \/ y = 2 \/ y = 3 \/ y = 4 \/ y = 5 \/ y = 6 \/ y = 7
          \/ y = 8 \/ y = 9 \/ y = 10 \/ y = 11 \/ y = 12 \/ y = 13 \/ y = 14
          \/ y = 15)%N as Hy by lia.
  clearbody y.
  repeat (destruct Hy as [->|Hy]; [try discriminate H3; try discriminate H2;
                                   auto|]).
  subst y. discriminate H2.
Qed.

(** The text of a UUID: five groups of 8, 4, 4, 4 and 12 hexadecimal
    digits, the third starting with the version 4 and the fourth with the
    variant 8, 9, a or b. *)
Lemma uuid4_str_format r :
  exists a b c v d e,
    uuid4_str r
    = a +:+ "-" +:+ b +:+ "-" +:+ String "4" c +:+ "-" +:+ String v d
      +:+ "-" +:+ e
    /\ String.length a = 8 /\ String.length b = 4 /\ String.length c = 3
    /\ String.length d = 3 /\ String.length e = 12
    /\ all_hex (a +:+ b +:+ c +:+ d +:+ e) = true
    /\ v ∈ ["8"; "9"; "a"; "b"]%char.
Proof.
  unfold uuid4_str. cbv zeta. set (hex := hex_digits 32 (uuid4_int r)).
  assert (String.length hex = 32) as Hlen by apply hex_digits_length.
  assert (all_hex hex = true) as Hhex by apply all_hex_hex_digits.
  assert (String.get 12 hex = Some "4"%char) as Hversion.
  { unfold hex. rewrite hex_digits_get by lia.
    change (4 * N.of_nat (32 - 1 - 12))%N with 76%N.
    by rewrite uuid4_version. }
  destruct (uuid4_variant r) as (y & Hy & Hcases).
  assert (String.get 16 hex = Some (hex_char y)) as Hvariant.
  { unfold hex. rewrite hex_digits_get by lia.
    change (4 * N.of_nat (32 - 1 - 16))%N with 60%N. by rewrite Hy. }
  rewrite (substring_cons 12 3 hex "4" Hversion).
  rewrite (substring_cons 16 3 hex (hex_char y) Hvariant).
  exists (String.substring 0 8 hex), (String.substring 8 4 hex),
    (String.substring 13 3 hex), (hex_char y), (String.substring 17 3 hex),
    (String.substring 20 12 hex).
  split; [done|].
  rewrite !substring_length by lia. do 5 (split; [done|]). split.
  - rewrite !all_hex_app. by rewrite !all_hex_substring.
  - rewrite !elem_of_cons.
    destruct Hcases as [->|[->|[->| ->]]]; simpl; auto.
Qed.

(** X11.  The bom-ref of every component is the text of a version 4 UUID:
    groups of 8, 4, 4, 4 and 12 lower-case hexadecimal digits separated by
    hyphens, with 4 as the first digit of the third group and 8, 9, a or b
    as the first digit of the fourth. *)
Theorem bom_ref_is_uuid4 (urandom : nat -> N)
  (libraries : list (string * string)) (comp : pyval) :
  comp ∈ sbom_components (generate_sbom urandom libraries) ->
  exists name a b c v d e,
    comp
    = component
        (a +:+ "-" +:+ b +:+ "-" +:+ String "4" c +:+ "-" +:+ String v d
         +:+ "-" +:+ e) name
    /\ String.length a = 8 /\ String.length b = 4 /\ String.length c = 3
    /\ String.length d = 3 /\ String.length e = 12
    /\ all_hex (a +:+ b +:+ c +:+ d +:+ e) = true
    /\ v ∈ ["8"; "9"; "a"; "b"]%char.
Proof.
  rewrite sbom_components_eq. unfold components_of.
  intros (i & Hi)%list_elem_of_lookup. rewrite list_lookup_imap in Hi.
  destruct (distinct_names libraries.*2 !! i) as [name|]; [|done].
  injection Hi as <-.
  destruct (uuid4_str_format (urandom i)) as (a & b & c & v & d & e & -> & H).
  by exists name, a, b, c, v, d, e.
Qed.

Lemma bom_ref_is_uuid4_witness :
  component "00000000-0000-4000-8000-000000000000" "A"
  ∈ sbom_components (generate_sbom (fun _ => 0%N) [("reference", "A")])
  /\ exists name a b c v d e,
       component "00000000-0000-4000-8000-000000000000" "A"
       = component
           (a +:+ "-" +:+ b +:+ "-" +:+ String "4" c +:+ "-" +:+ String v d
            +:+ "-" +:+ e) name
       /\ String.length a = 8 /\ String.length b = 4 /\ String.length c = 3
       /\ String.length d = 3 /\ String.length e = 12
       /\ all_hex (a +:+ b +:+ c +:+ d +:+ e) = true
       /\ v ∈ ["8"; "9"; "a"; "b"]%char.
Proof.
  assert (component "00000000-0000-4000-8000-000000000000" "A"
          ∈ sbom_components
              (generate_sbom (fun _ => 0%N) [("reference", "A")])) as H.
  { apply elem_of_cons. left. reflexivity. }
  split; [exact H|].
  exact (bom_ref_is_uuid4 (fun _ => 0%N) [("reference", "A")] _ H).
Defined.

(** ** Stage names and the output directory *)

Lemma startswith_slash_cons c s t :
  startswith (String c s +:+ t) "/" = Ascii.eqb "/" c.
Proof.
  rewrite str_app_cons. unfold startswith. cbn [strip_prefix].
  by destruct (Ascii.eqb "/" c).
Qed.

(** X12.  The stage name is used as it is: when it starts with a slash,
    the path of the file is the file name alone and does not depend on the
    output directory; in every other case the path starts with the output
    directory. *)
Theorem stage_path_and_output_dir (output_dir : string) (stage : element)
  (idx : nat) :
  (forall rest,
     stage_name stage = String "/" rest ->
     stage_path output_dir stage idx
     = file_name (stage_name stage) idx
         (file_extension (language_of (tostring stage))))
  /\ ((forall rest, stage_name stage <> String "/" rest) ->
      exists rest, stage_path output_dir stage idx = output_dir +:+ rest).
Proof.
  unfold stage_path, os_path_join, file_name. split.
  - intros rest ->. by rewrite startswith_slash_cons.
  - intros Hname.
    assert (startswith
              (stage_name stage +:+ "_" +:+ pretty idx +:+ "."
               +:+ file_extension (language_of (tostring stage))) "/"
            = false) as ->.
    { destruct (stage_name stage) as [|c s] eqn:E.
      - rewrite str_app_nil_l. apply (startswith_slash_cons "_" "").
      - rewrite startswith_slash_cons.
        destruct (Ascii.eqb_spec "/" c) as [<-|]; [|done].
        by destruct (Hname s). }
    destruct (bool_decide (output_dir = "") || endswith output_dir "/");
      eauto.
Qed.

(** ** The JSON text of a name *)

Lemma app_eq_startswith x r y r' :
  x +:+ r = y +:+ r' -> startswith x y = true \/ startswith y x = true.
Proof.
  unfold startswith. revert y. induction x as [|a x IH]; intros [|b y] H;
    try (by left); try (by right).
  rewrite !str_app_cons in H. injection H as -> H. cbn [strip_prefix].
  rewrite Ascii.eqb_refl. by apply IH.
Qed.

Lemma escape_char_prefix_free c c' :
  startswith (Json.escape_char c) (Json.escape_char c') = true -> c = c'.
Proof.
  assert (forallb (fun c => forallb (fun c' =>
            implb (startswith (Json.escape_char c) (Json.escape_char c'))
                  (Ascii.eqb c c')) all_ascii) all_ascii = true) as H
    by (vm_compute; reflexivity).
  rewrite forallb_forall in H.
  specialize (H c (proj1 (list_elem_of_In _ _) (all_ascii_complete c))).
  rewrite forallb_forall in H.
  specialize (H c' (proj1 (list_elem_of_In _ _) (all_ascii_complete c'))).
  intros Hs. rewrite Hs in H. by apply Ascii.eqb_eq.
Qed.

Lemma escape_char_nonempty c : Json.escape_char c <> "".
Proof.
  assert (forallb (fun c => negb (String.eqb (Json.escape_char c) ""))
            all_ascii = true) as H by (vm_compute; reflexivity).
  rewrite forallb_forall in H.
  specialize (H c (proj1 (list_elem_of_In _ _) (all_ascii_complete c))).
  intros Heq. rewrite Heq in H. done.
Qed.

Lemma escape_string_inj s t :
  Json.escape_string s = Json.escape_string t -> s = t.
Proof.
  revert t. induction s as [|c s IH]; intros [|c' t] H; simpl in H.
  - done.
  - symmetry in H. apply str_app_eq_nil in H as [H _].
    by destruct (escape_char_nonempty c').
  - apply str_app_eq_nil in H as [H _]. by destruct (escape_char_nonempty c).
  - assert (c = c') as <-.
    { destruct (app_eq_startswith _ _ _ _ H) as [Hs|Hs];
        apply escape_char_prefix_free in Hs; done. }
    apply (inj (String.app _)) in H. f_equal. by apply IH.
Qed.

(** X13.  Different strings have different JSON texts: the name of a
    library can be told from what sbom.json holds for it. *)
Theorem encode_basestring_ascii_inj (s t : string) :
  Json.encode_basestring_ascii s = Json.encode_basestring_ascii t -> s = t.
Proof.
  unfold Json.encode_basestring_ascii. intros H.
  apply (inj (String.app _)) in H. apply str_app_inj_r in H.
  by apply escape_string_inj.
Qed.

Lemma encode_basestring_ascii_inj_witness :
  Json.encode_basestring_ascii "System.IO"
  = Json.encode_basestring_ascii "System.IO"
  /\ "System.IO" = "System.IO".
Proof.
  split; [reflexivity|].
  exact (encode_basestring_ascii_inj "System.IO" "System.IO" eq_refl).
Defined.

(** ** The language that is found *)

Lemma str_app_inv_length a a' x x' :
  a +:+ x = a' +:+ x' -> String.length a = String.length a' ->
  a = a' /\ x = x'.
Proof.
  revert a'. induction a as [|c a IH]; intros [|c' a'] H Hlen; try done.
  rewrite !str_app_cons in H. injection H as -> H. injection Hlen as Hlen.
  destruct (IH a' H Hlen) as [-> ->]. done.
Qed.

(** For a pattern without attribute part the first match is unique, and it
    is the one [re.search] returns. *)
Lemma search_first_match p s a g rest :
  p_attrs p = false ->
  first_match p s a g rest -> search p s = Some (g, rest).
Proof.
  intros Hat [Hm Hmin].
  destruct (search p s) as [[g' rest']|] eqn:E;
    [|by destruct (search_None _ _ E a g rest)].
  destruct (search_Some _ _ _ _ E) as (a' & Hm' & Hmin').
  assert (String.length a = String.length a'
          /\ String.length g = String.length g') as [Ha Hg].
  { destruct (Hmin _ _ _ Hm') as [?|[? ?]];
      destruct (Hmin' _ _ _ Hm) as [?|[? ?]]; lia. }
  destruct Hm as (attrs & Hs & Hattrs & _).
  destruct Hm' as (attrs' & Hs' & Hattrs' & _).
  rewrite Hat in Hattrs, Hattrs'. subst attrs attrs'.
  rewrite Hs in Hs'. rewrite !str_app_nil_l in Hs'.
  apply str_app_inv_length in Hs' as [_ Hs']; [|done].
  apply (inj (String.app _)) in Hs'.
  apply str_app_inv_length in Hs' as [-> Hs']; [|done].
  apply (inj (String.app _)) in Hs'. by subst.
Qed.

(** X14.  A language is found exactly at the leftmost language element of
    the serialized stage whose content is on one line: the language is the
    content of that element up to the first closing tag, and the extension
    is the one of that content. *)
Theorem language_is_first_single_line_element (serialized a g rest : string) :
  first_match language_pattern serialized a g rest ->
  language_of serialized = g
  /\ serialized = a +:+ "<ns0:language>" +:+ g +:+ "</ns0:language>" +:+ rest
  /\ contains_char newline g = false.
Proof.
  intros Hfirst.
  pose proof (proj1 Hfirst) as [Heq Hnl]%is_match_language.
  split; [|done].
  unfold language_of. by rewrite (search_first_match _ _ a g rest).
Qed.

Lemma language_is_first_single_line_element_witness :
  exists a rest,
    first_match language_pattern (tostring main_stage) a "csharp" rest
    /\ language_of (tostring main_stage) = "csharp".
Proof.
  assert (search language_pattern (tostring main_stage)
          = Some ("csharp",
                  "<ns0:code>A</ns0:code><ns0:code>B</ns0:code></ns0:stage>"))
    as Hsearch by reflexivity.
  destruct (search_Some _ _ _ _ Hsearch) as [a Hfirst].
  exists a, "<ns0:code>A</ns0:code><ns0:code>B</ns0:code></ns0:stage>".
  split; [exact Hfirst|].
  exact (proj1 (language_is_first_single_line_element _ _ _ _ Hfirst)).
Defined.
